(** * Ground-contact pass catalogue: a shallow embedding of [run_passes.py]

    The development follows the source file function by function:
    [parse_utc], [mb_from_mbps], [make_satellite], [compute_passes] (with the
    event-scanning [while] loop at its centre), [make_outputs] and [main].

    Modelling conventions.
    - Python [float] values are modelled by exact rationals ([Q]); binary64
      rounding is abstracted away, numeric results are compared with [==].
    - Python exceptions are modelled by the [result] type: a call either
      returns ([Ok]) or raises ([Raise]).
    - Objects of the external libraries (skyfield, datetime, pandas) are
      modelled by records of what the program observes of them; text that
      denotes an instant is modelled by the instant it denotes.
    - A [str] is modelled by its UTF-8 encoding.
    - The sum that pandas takes of a float column is a parameter,
      [column_sum]; nothing is assumed of it. *)

From Stdlib Require Import ZArith QArith Qround String Ascii Bool List Sorted Lia Lqa.
From Stdlib Require Import Permutation.
From Equations Require Import Equations.
Import ListNotations.

Open Scope Z_scope.

(** ** Exceptions *)

Inductive exn : Type :=
| IndexError
| KeyError
| RuntimeError
| ValueError
| OverflowError
| AttributeError
| OSError.

Inductive result (A : Type) : Type :=
| Ok (a : A)
| Raise (e : exn).

Arguments Ok {A} a.
Arguments Raise {A} e.

Definition bind {A B : Type} (c : result A) (k : A -> result B) : result B :=
  match c with
  | Ok a => k a
  | Raise e => Raise e
  end.

Notation "x <- c ;; k" := (bind c (fun x => k))
  (at level 61, c at next level, right associativity).

Definition inspect {A : Type} (a : A) : {b : A | a = b} := exist _ a eq_refl.

(** ** Python sequences and dictionaries *)

(** [l[i]]: a negative index counts from the end, an index out of range
    raises [IndexError]. *)
Definition getitem {A : Type} (l : list A) (i : Z) : result A :=
  let n := Z.of_nat (length l) in
  let j := if i <? 0 then i + n else i in
  if (0 <=? j) && (j <? n) then
    match nth_error l (Z.to_nat j) with
    | Some a => Ok a
    | None => Raise IndexError
    end
  else Raise IndexError.

(** [d[key]] on an optional entry: a missing key raises [KeyError]. *)
Definition subscript {A : Type} (entry : option A) : result A :=
  match entry with
  | Some a => Ok a
  | None => Raise KeyError
  end.

(** [d.get(key, default)]. *)
Definition dict_get {A : Type} (entry : option A) (default : A) : A :=
  match entry with
  | Some a => a
  | None => default
  end.

(** ** Numbers *)

Definition Qltb (x y : Q) : bool := negb (Qle_bool y x).

(** Nearest integer, ties to the even neighbour. *)
Definition round_half_even (x : Q) : Z :=
  let f := Qfloor x in
  match (x - inject_Z f ?= 1 # 2)%Q with
  | Lt => f
  | Gt => f + 1
  | Eq => if Z.even f then f else f + 1
  end.

(** [round(x, ndigits)] for a non-negative [ndigits]. *)
Definition round (x : Q) (ndigits : nat) : Q :=
  let p := inject_Z (10 ^ Z.of_nat ndigits) in
  (inject_Z (round_half_even (x * p)) / p)%Q.

(** ** Time/link utilities *)

(** A [datetime]: its wall-clock fields as microseconds since
    [datetime.min] (0001-01-01T00:00:00), and the UTC offset of its
    [tzinfo] (in microseconds), [None] for a naive value. *)
Record datetime : Type := mk_datetime {
  wall_us : Z;
  tzinfo : option Z
}.

Definition timezone_utc : Z := 0.

(** One past [datetime.max] (9999-12-31T23:59:59.999999): the ordinal of
    its date is 3652059. *)
Definition datetime_end_us : Z := 3652059 * 86400000000.

(** The wall-clock fields that a [datetime] can hold. *)
Definition in_datetime_range (wall : Z) : bool :=
  (0 <=? wall) && (wall <? datetime_end_us).

(** [dt.astimezone(tz)]: the same instant expressed at offset [tz]; a naive
    value is taken to be in the system's local zone, whose offset at that
    wall-clock time is [local_utcoffset] (the lookup can fail). Taking the
    offset off, and putting the new one on, raises [OverflowError] when
    the result leaves the range of [datetime]. *)
Definition astimezone (local_utcoffset : Z -> result Z) (dt : datetime) (tz : Z)
  : result datetime :=
  off <- match tzinfo dt with
         | Some o => Ok o
         | None => local_utcoffset (wall_us dt)
         end ;;
  let utc := wall_us dt - off in
  if in_datetime_range utc && in_datetime_range (utc + tz)
  then Ok {| wall_us := utc + tz; tzinfo := Some tz |}
  else Raise OverflowError.

(** [ts.endswith(suffix)]. *)
Definition endswith (ts suffix : string) : bool :=
  let n := String.length ts in
  let m := String.length suffix in
  (m <=? n)%nat && String.eqb (substring (n - m) m ts) suffix.

(** [ts[:-1]]. *)
Definition drop_last (ts : string) : string :=
  substring 0 (String.length ts - 1) ts.

Section TimeUtilities.

(** [datetime.fromisoformat] of the standard library and the offset of the
    system's local zone. *)
Variable fromisoformat : string -> result datetime.
Variable local_utcoffset : Z -> result Z.

Definition parse_utc (ts : string) : result datetime :=
  let ts := if endswith ts "Z" then (drop_last ts ++ "+00:00")%string else ts in
  dt <- fromisoformat ts ;;
  astimezone local_utcoffset dt timezone_utc.

End TimeUtilities.

Definition mb_from_mbps (mbps seconds efficiency : Q) : Q :=
  ((mbps * 1000000 / 8) * seconds * efficiency / 1000000)%Q.

(** ** The propagation collaborator *)

(** A skyfield [Time], by what the program reads of it: [utc_datetime()] as
    microseconds since the epoch, and the instant that the text of
    [utc_iso()] denotes, as seconds since the epoch. *)
Record Time : Type := mk_Time {
  utc_datetime : Z;
  utc_iso : Z
}.

(** [timedelta.total_seconds()] of a difference of [utc_datetime] values. *)
Definition total_seconds (td_us : Z) : Q := td_us # 1000000.

(** [wgs84.latlon(lat, lon, elevation_m=alt)]. *)
Record GeographicPosition : Type := latlon {
  latitude_deg : Q;
  longitude_deg : Q;
  elevation_m : Q
}.

(** An [EarthSatellite], by the attribute and the methods the program
    uses: [name] is [None] for an entity read from elements without a name
    line; [sat.find_events(station, t0, t1, altitude_degrees=mask)] returns
    the arrays [(times, events)]; [altaz_alt_degrees station t] is
    [(sat.at(t) - station.at(t)).altaz()[0].degrees]. The window bounds are
    passed as instants in microseconds. *)
Record EarthSatellite : Type := mk_EarthSatellite {
  name : option string;
  find_events : GeographicPosition -> Z -> Z -> Q -> list Time * list Z;
  altaz_alt_degrees : GeographicPosition -> Time -> Q
}.

(** [sat.name = n]. *)
Definition set_name (sat : EarthSatellite) (n : option string) : EarthSatellite :=
  {| name := n;
     find_events := find_events sat;
     altaz_alt_degrees := altaz_alt_degrees sat |}.

(** ** Configuration *)

Record SatCfg : Type := mk_SatCfg {
  cfg_name : option string;
  cfg_tle_url : option string;
  cfg_tle1 : option string;
  cfg_tle2 : option string
}.

Record GroundStation : Type := mk_GroundStation {
  gs_name : string;
  gs_lat_deg : Q;
  gs_lon_deg : Q;
  gs_alt_m : Q;
  gs_mask_deg : option Q
}.

Record Config : Type := mk_Config {
  time_start_utc : string;
  time_end_utc : string;
  link_downlink_mbps : Q;
  link_efficiency : Q;
  analysis_min_pass_duration_s : option Q;
  satellites : list SatCfg;
  ground_stations : list GroundStation
}.

(** ** Satellite resolution *)

(** The characters of a [str], each as its UTF-8 encoding: the first byte
    tells how many bytes follow. *)
Definition utf8_width (c : ascii) : nat :=
  let n := nat_of_ascii c in
  if (n <? 192)%nat then 1
  else if (n <? 224)%nat then 2
  else if (n <? 240)%nat then 3
  else 4.

Fixpoint chars (s : string) : list string :=
  match s with
  | EmptyString => []
  | String c1 r1 =>
      match utf8_width c1, r1 with
      | 2%nat, String c2 r2 =>
          String c1 (String c2 EmptyString) :: chars r2
      | 3%nat, String c2 (String c3 r3) =>
          String c1 (String c2 (String c3 EmptyString)) :: chars r3
      | 4%nat, String c2 (String c3 (String c4 r4)) =>
          String c1 (String c2 (String c3 (String c4 EmptyString))) :: chars r4
      | _, _ => String c1 EmptyString :: chars r1
      end
  end.

(** The code point that a character encodes. *)
Definition code_point (ch : string) : Z :=
  match map (fun a => Z.of_nat (nat_of_ascii a)) (list_ascii_of_string ch) with
  | [a] => if a <? 128 then a else -1
  | [a; b] => (a mod 32) * 64 + b mod 64
  | [a; b; c] => (a mod 16) * 4096 + (b mod 64) * 64 + c mod 64
  | [a; b; c; d] =>
      (a mod 8) * 262144 + (b mod 64) * 4096 + (c mod 64) * 64 + d mod 64
  | _ => -1
  end.

(** The characters that [str.strip()] removes: [ch.isspace()]. *)
Definition is_space (ch : string) : bool :=
  let n := code_point ch in
  (9 <=? n) && (n <=? 13) || (28 <=? n) && (n <=? 32) ||
  (n =? 133) || (n =? 160) || (n =? 5760) ||
  (8192 <=? n) && (n <=? 8202) ||
  (n =? 8232) || (n =? 8233) || (n =? 8239) || (n =? 8287) || (n =? 12288).

Fixpoint drop_spaces (l : list string) : list string :=
  match l with
  | [] => []
  | ch :: rest => if is_space ch then drop_spaces rest else l
  end.

(** [s.strip()]. *)
Definition strip (s : string) : string :=
  String.concat "" (rev (drop_spaces (rev (drop_spaces (chars s))))).

(** [s.name.strip()]: a satellite without a name has no [strip]. *)
Definition name_strip (s : EarthSatellite) : result string :=
  match name s with
  | Some n => Ok (strip n)
  | None => Raise AttributeError
  end.

(** The loop [for s in sats: if s.name.strip() == target: return s]; [None]
    when the loop falls through. *)
Fixpoint first_named (target : string) (sats : list EarthSatellite)
  : result (option EarthSatellite) :=
  match sats with
  | [] => Ok None
  | s :: rest =>
      n <- name_strip s ;;
      if String.eqb n target then Ok (Some s)
      else first_named target rest
  end.

Section SatelliteSources.

(** [load.tle_file(url)] and the constructor
    [EarthSatellite(tle1, tle2, name, ts)]; either can fail, the loader
    for one with [OSError] on a source that it cannot read. *)
Variable tle_file : string -> result (list EarthSatellite).
Variable EarthSatellite_of_tle : string -> string -> string -> result EarthSatellite.

Definition make_satellite (sat_cfg : SatCfg) : result EarthSatellite :=
  match cfg_tle_url sat_cfg with
  | Some url =>
      sats <- tle_file url ;;
      match sats with
      | [] => Raise RuntimeError
      | [sat] =>
          Ok (set_name sat (match cfg_name sat_cfg with
                            | Some n => Some n
                            | None => name sat
                            end))
      | _ =>
          let target := strip (dict_get (cfg_name sat_cfg) ""%string) in
          found <- first_named target sats ;;
          match found with
          | Some s => Ok s
          | None => getitem sats 0
          end
      end
  | None =>
      tle1 <- subscript (cfg_tle1 sat_cfg) ;;
      tle2 <- subscript (cfg_tle2 sat_cfg) ;;
      n <- subscript (cfg_name sat_cfg) ;;
      EarthSatellite_of_tle tle1 tle2 n
  end.

End SatelliteSources.

(** ** The pass catalogue *)

(** One dictionary appended to [rows]. [aos_utc] and [los_utc] hold the
    instants (seconds since the epoch) that the ISO texts denote. *)
Record PassRow : Type := mk_PassRow {
  satellite : option string;
  station : string;
  mask_deg : Q;
  aos_utc : Z;
  los_utc : Z;
  duration_s : Q;
  max_elev_deg : Q;
  downlink_mbps : Q;
  efficiency : Q;
  data_mb_est : Q
}.

(** The state of the event scan: the cursor [i] and the list [rows]. *)
Definition ScanState : Type := (Z * list PassRow)%type.

Section EventScan.

(** The variables of [compute_passes] that are in scope in the loop. *)
Variable sat : EarthSatellite.
Variable gs : GroundStation.
Variable geo : GeographicPosition.
Variable mask : Q.
Variable cfg_downlink_mbps : Q.
Variable cfg_efficiency : Q.
Variable min_dur_s : Q.
Variable times : list Time.
Variable events : list Z.

(** [dur_s] of the candidate delimited by [t_rise] and [t_set]. *)
Definition pass_seconds (t_rise t_set : Time) : Q :=
  total_seconds (utc_datetime t_set - utc_datetime t_rise).

(** The dictionary built for an accepted triple. *)
Definition pass_row (t_rise t_culm t_set : Time) : PassRow :=
  let dur_s := pass_seconds t_rise t_set in
  let max_elev_deg := altaz_alt_degrees sat geo t_culm in
  let data_mb := mb_from_mbps cfg_downlink_mbps dur_s cfg_efficiency in
  {| satellite := name sat;
     station := gs_name gs;
     mask_deg := mask;
     aos_utc := utc_iso t_rise;
     los_utc := utc_iso t_set;
     duration_s := round dur_s 1;
     max_elev_deg := round max_elev_deg 2;
     downlink_mbps := cfg_downlink_mbps;
     efficiency := cfg_efficiency;
     data_mb_est := round data_mb 2 |}.

(** [events[i] == 0 and events[i + 1] == 1 and events[i + 2] == 2]. *)
Definition is_triple (i : Z) : result bool :=
  e0 <- getitem events i ;;
  if e0 =? 0 then
    e1 <- getitem events (i + 1) ;;
    if e1 =? 1 then
      e2 <- getitem events (i + 2) ;;
      Ok (e2 =? 2)
    else Ok false
  else Ok false.

(** [i < len(events) - 2]. *)
Definition loop_cond (st : ScanState) : bool :=
  fst st <? Z.of_nat (length events) - 2.

(** One iteration of the body of the [while] loop. *)
Definition loop_body (st : ScanState) : result ScanState :=
  let '(i, rows) := st in
  matched <- is_triple i ;;
  if matched then
    t_rise <- getitem times i ;;
    t_culm <- getitem times (i + 1) ;;
    t_set <- getitem times (i + 2) ;;
    let dur_s := pass_seconds t_rise t_set in
    if Qltb dur_s min_dur_s then Ok (i + 3, rows)
    else Ok (i + 3, rows ++ [pass_row t_rise t_culm t_set])
  else Ok (i + 1, rows).

(** The [while] loop, by well-founded recursion on the number of events
    left of the cursor's bound. *)
Equations? while_loop (st : ScanState) : result ScanState
  by wf (Z.to_nat (Z.of_nat (length events) - fst st)) lt :=
while_loop st with inspect (loop_cond st) := {
  | exist _ false _ => Ok st
  | exist _ true Hc with inspect (loop_body st) := {
      | exist _ (Raise e) _ => Raise e
      | exist _ (Ok st') Hb => while_loop st' } }.
Proof.
  destruct st as [i rows]. unfold loop_cond in Hc. unfold loop_body in Hb.
  simpl in *. apply Z.ltb_lt in Hc.
  assert (Hi : fst st' = i + 3 \/ fst st' = i + 1).
  { destruct (is_triple i) as [[|]|]; simpl in Hb; try discriminate.
    - destruct (getitem times i); simpl in Hb; try discriminate.
      destruct (getitem times (i + 1)); simpl in Hb; try discriminate.
      destruct (getitem times (i + 2)); simpl in Hb; try discriminate.
      destruct (Qltb _ _); inversion Hb; subst; simpl; auto.
    - inversion Hb; subst; simpl; auto. }
  lia.
Qed.

(** The same loop run for at most [fuel] iterations; [None] when the
    iterations are used up before the condition fails. *)
Fixpoint unroll (fuel : nat) (st : ScanState) : option (result ScanState) :=
  if loop_cond st then
    match fuel with
    | O => None
    | S fuel' =>
        match loop_body st with
        | Raise e => Some (Raise e)
        | Ok st' => unroll fuel' st'
        end
    end
  else Some (Ok st).

(** The scan of one satellite/station pair: [i = 0], then the loop. *)
Definition scan_events (rows : list PassRow) : result (list PassRow) :=
  st <- while_loop (0, rows) ;;
  Ok (snd st).

End EventScan.

(** ** The catalogue builder *)

(** A row of the returned frame: the dictionary plus the two columns added
    at the end of [compute_passes]; [date_utc] is a day number. *)
Record CatalogRow : Type := mk_CatalogRow {
  pass : PassRow;
  aos_dt : Z;
  date_utc : Z
}.

(** The two shapes of [DataFrame] the program handles: [pd.DataFrame(rows)],
    whose columns are the keys of the dictionaries (no column at all when
    [rows] is empty), and the frame with [aos_dt] and [date_utc] added. *)
Inductive DataFrame : Type :=
| PassFrame (rows : list PassRow)
| CatalogFrame (rows : list CatalogRow).

(** [df.empty]. *)
Definition df_empty (df : DataFrame) : bool :=
  match df with
  | PassFrame [] | CatalogFrame [] => true
  | _ => false
  end.

(** [pd.to_datetime(aos_utc, utc=True)] and [.dt.date], row by row. *)
Definition with_dates (r : PassRow) : CatalogRow :=
  let dt := aos_utc r in
  {| pass := r; aos_dt := dt; date_utc := dt / 86400 |}.

Section CatalogBuilder.

Variable fromisoformat : string -> result datetime.
Variable local_utcoffset : Z -> result Z.
Variable tle_file : string -> result (list EarthSatellite).
Variable EarthSatellite_of_tle : string -> string -> string -> result EarthSatellite.

(** The loop [for gs in cfg["ground_stations"]]. *)
Fixpoint for_ground_stations (sat : EarthSatellite) (t0 t1 : Z)
    (mbps eff min_dur_s : Q) (stations : list GroundStation)
    (rows : list PassRow) : result (list PassRow) :=
  match stations with
  | [] => Ok rows
  | gs :: rest =>
      let geo := latlon (gs_lat_deg gs) (gs_lon_deg gs) (gs_alt_m gs) in
      let mask := dict_get (gs_mask_deg gs) 0%Q in
      let '(times, events) := find_events sat geo t0 t1 mask in
      rows' <- scan_events sat gs geo mask mbps eff min_dur_s times events rows ;;
      for_ground_stations sat t0 t1 mbps eff min_dur_s rest rows'
  end.

(** The loop [for sat_cfg in cfg["satellites"]]. *)
Fixpoint for_satellites (t0 t1 : Z) (mbps eff min_dur_s : Q)
    (stations : list GroundStation) (sats : list SatCfg)
    (rows : list PassRow) : result (list PassRow) :=
  match sats with
  | [] => Ok rows
  | sat_cfg :: rest =>
      sat <- make_satellite tle_file EarthSatellite_of_tle sat_cfg ;;
      rows' <- for_ground_stations sat t0 t1 mbps eff min_dur_s stations rows ;;
      for_satellites t0 t1 mbps eff min_dur_s stations rest rows'
  end.

Definition compute_passes (cfg : Config) : result DataFrame :=
  t0_dt <- parse_utc fromisoformat local_utcoffset (time_start_utc cfg) ;;
  t1_dt <- parse_utc fromisoformat local_utcoffset (time_end_utc cfg) ;;
  let t0 := wall_us t0_dt in
  let t1 := wall_us t1_dt in
  let downlink_mbps := link_downlink_mbps cfg in
  let efficiency := link_efficiency cfg in
  let min_dur_s := dict_get (analysis_min_pass_duration_s cfg) 0%Q in
  rows <- for_satellites t0 t1 downlink_mbps efficiency min_dur_s
            (ground_stations cfg) (satellites cfg) [] ;;
  let df := PassFrame rows in
  if df_empty df then Ok df
  else Ok (CatalogFrame (map with_dates rows)).

End CatalogBuilder.

(** ** Aggregation *)

(** The three aggregated columns of a summary row. *)
Record Totals : Type := mk_Totals {
  total_contact_s : Q;
  total_data_mb : Q;
  passes : Z
}.

Section GroupBy.

(** [df.groupby(keys)]: the rows under each distinct key, the keys in
    ascending order, the rows of a group in the order they have in the
    frame. *)
Variable K V : Type.
Variable compare : K -> K -> comparison.

Fixpoint group_add (k : K) (v : V) (groups : list (K * list V)) : list (K * list V) :=
  match groups with
  | [] => [(k, [v])]
  | (k', vs) :: rest =>
      match compare k k' with
      | Eq => (k', vs ++ [v]) :: rest
      | Lt => (k, [v]) :: (k', vs) :: rest
      | Gt => (k', vs) :: group_add k v rest
      end
  end.

Definition groupby (items : list (K * V)) : list (K * list V) :=
  fold_left (fun groups kv => group_add (fst kv) (snd kv) groups) items [].

End GroupBy.

(** The key [["date_utc", "satellite", "station"]]. *)
Definition DailyKey : Type := (Z * string * string)%type.

(** The key of a row. A row whose satellite name is [None] has a missing
    key, and [groupby] leaves such rows out. *)
Definition daily_key (r : CatalogRow) : option DailyKey :=
  match satellite (pass r) with
  | Some n => Some (date_utc r, n, station (pass r))
  | None => None
  end.

Definition daily_key_compare (a b : DailyKey) : comparison :=
  let '(d1, s1, g1) := a in
  let '(d2, s2, g2) := b in
  match d1 ?= d2 with
  | Eq => match String.compare s1 s2 with
          | Eq => String.compare g1 g2
          | c => c
          end
  | c => c
  end.

(** The rows that have a key, each with its key. *)
Definition keyed (rows : list CatalogRow) : list (DailyKey * CatalogRow) :=
  flat_map (fun r => match daily_key r with
                     | Some k => [(k, r)]
                     | None => []
                     end) rows.

(** What [make_outputs] writes: the catalogue, the daily summary, and the
    per-date rollup that the two plots draw. *)
Record Outputs : Type := mk_Outputs {
  passes_csv : list CatalogRow;
  daily_summary_csv : list (DailyKey * Totals);
  daily_rollup : list (Z * Totals)
}.

Section Aggregation.

(** The aggregation ["sum"] of pandas over a column of floats, taken on
    the values of a group in their order. *)
Variable column_sum : list Q -> Q.

(** [agg(total_contact_s=("duration_s", "sum"),
         total_data_mb=("data_mb_est", "sum"),
         passes=("duration_s", "count"))] on one group. *)
Definition daily_agg (group : list CatalogRow) : Totals :=
  {| total_contact_s := column_sum (map (fun r => duration_s (pass r)) group);
     total_data_mb := column_sum (map (fun r => data_mb_est (pass r)) group);
     passes := Z.of_nat (length group) |}.

(** [daily] of [make_outputs]. *)
Definition daily (rows : list CatalogRow) : list (DailyKey * Totals) :=
  map (fun g => (fst g, daily_agg (snd g)))
    (groupby DailyKey CatalogRow daily_key_compare (keyed rows)).

(** The three sums of the rollup on one group; the count column holds
    integers. *)
Definition rollup_agg (group : list Totals) : Totals :=
  {| total_contact_s := column_sum (map total_contact_s group);
     total_data_mb := column_sum (map total_data_mb group);
     passes := fold_right Z.add 0 (map passes group) |}.

(** [daily_total] of [make_outputs]. *)
Definition daily_total (summary : list (DailyKey * Totals)) : list (Z * Totals) :=
  map (fun g => (fst g, rollup_agg (snd g)))
    (groupby Z Totals Z.compare
       (map (fun g : DailyKey * Totals => (fst (fst (fst g)), snd g)) summary)).

(** Grouping by a column the frame lacks raises [KeyError]. *)
Definition make_outputs (df : DataFrame) : result Outputs :=
  match df with
  | PassFrame _ => Raise KeyError
  | CatalogFrame rows =>
      let summary := daily rows in
      Ok {| passes_csv := rows;
            daily_summary_csv := summary;
            daily_rollup := daily_total summary |}
  end.

End Aggregation.

(** The run: either the guidance message is printed and nothing is written,
    or the artifacts are. *)
Inductive RunOutcome : Type :=
| NoPassesFound
| Saved (out : Outputs).

Section Main.

Variable fromisoformat : string -> result datetime.
Variable local_utcoffset : Z -> result Z.
Variable tle_file : string -> result (list EarthSatellite).
Variable EarthSatellite_of_tle : string -> string -> string -> result EarthSatellite.
Variable column_sum : list Q -> Q.

Definition main (cfg : Config) : result RunOutcome :=
  df <- compute_passes fromisoformat local_utcoffset tle_file EarthSatellite_of_tle cfg ;;
  if df_empty df then Ok NoPassesFound
  else
    out <- make_outputs column_sum df ;;
    Ok (Saved out).

End Main.

(** ** Vocabulary of the statements *)

(** An accepted triple: the cursor position of its rise and its three
    times. *)
Record Emission : Type := mk_Emission {
  pos : Z;
  t_rise : Time;
  t_culm : Time;
  t_set : Time
}.

(** [e] is a rise/culmination/set triple of the stream at [pos e] whose
    duration is not below the minimum. *)
Definition emitted (min_dur_s : Q) (times : list Time) (events : list Z)
    (e : Emission) : Prop :=
  0 <= pos e /\ pos e + 2 < Z.of_nat (length events) /\
  getitem events (pos e) = Ok 0 /\
  getitem events (pos e + 1) = Ok 1 /\
  getitem events (pos e + 2) = Ok 2 /\
  getitem times (pos e) = Ok (t_rise e) /\
  getitem times (pos e + 1) = Ok (t_culm e) /\
  getitem times (pos e + 2) = Ok (t_set e) /\
  (min_dur_s <= pass_seconds (t_rise e) (t_set e))%Q.

(** The stream is as long as its event codes need: [find_events] returns
    two arrays of one length. *)
Definition aligned (times : list Time) (events : list Z) : Prop :=
  (length events <= length times)%nat.

(** The triples start at or after [from], in increasing order, and no two
    of them share an index. *)
Fixpoint spaced (from : Z) (es : list Emission) : Prop :=
  match es with
  | [] => True
  | e :: rest => from <= pos e /\ spaced (pos e + 3) rest
  end.

(** The stream is in chronological order. *)
Definition chronological (times : list Time) : Prop :=
  forall i j a b, 0 <= i -> i <= j ->
    getitem times i = Ok a -> getitem times j = Ok b ->
    utc_datetime a <= utc_datetime b.

(** The rows of a returned frame, as the dictionaries they came from. *)
Definition catalog_rows (df : DataFrame) : list PassRow :=
  match df with
  | PassFrame rows => rows
  | CatalogFrame rows => map pass rows
  end.

(** The row records a rise-to-set span that is not below the minimum. *)
Definition long_enough (min_dur_s : Q) (r : PassRow) : Prop :=
  exists tr ts,
    aos_utc r = utc_iso tr /\ los_utc r = utc_iso ts /\
    duration_s r = round (pass_seconds tr ts) 1 /\
    (min_dur_s <= pass_seconds tr ts)%Q.

(** The catalogue rows that fall under a key, and those that have a key
    and fall on a date; the groups of a summary that fall on a date. *)
Definition daily_key_eqb (a b : DailyKey) : bool :=
  let '(d1, s1, g1) := a in
  let '(d2, s2, g2) := b in
  (d1 =? d2) && String.eqb s1 s2 && String.eqb g1 g2.

Definition rows_of_key (k : DailyKey) (rows : list CatalogRow) : list CatalogRow :=
  filter (fun r => match daily_key r with
                   | Some k' => daily_key_eqb k k'
                   | None => false
                   end) rows.

Definition rows_of_date (d : Z) (rows : list CatalogRow) : list CatalogRow :=
  filter (fun r => match daily_key r with
                   | Some _ => d =? date_utc r
                   | None => false
                   end) rows.

Definition groups_of_date (d : Z) (summary : list (DailyKey * Totals))
  : list (DailyKey * Totals) :=
  filter (fun g => d =? fst (fst (fst g))) summary.

(** The sum of [w] over the rows of the groups whose key is selected. *)
Definition selected_weight {K V : Type} (w : V -> Z) (sel : K -> bool)
    (groups : list (K * list V)) : Z :=
  fold_right (fun g acc => if sel (fst g)
                           then fold_right Z.add 0 (map w (snd g)) + acc
                           else acc)
    0 groups.

Section Members.

Variable K V : Type.
Variable compare : K -> K -> comparison.

(** The rows filed under [k] in a grouped table. *)
Fixpoint members (k : K) (groups : list (K * list V)) : list V :=
  match groups with
  | [] => []
  | g :: rest =>
      match compare k (fst g) with
      | Eq => snd g ++ members k rest
      | _ => members k rest
      end
  end.

(** The values of the items whose key is [k], in the order of the items. *)
Definition values_of (k : K) (items : list (K * V)) : list V :=
  map snd (filter (fun kv => match compare k (fst kv) with
                             | Eq => true
                             | _ => false
                             end) items).

End Members.

(** ** Fixtures *)

Definition time_at (us : Z) : Time :=
  {| utc_datetime := us; utc_iso := (us + 500000) / 1000000 |}.

Definition geo0 : GeographicPosition := latlon 0 0 0.

Definition gs0 : GroundStation :=
  {| gs_name := "GS-1"; gs_lat_deg := 0; gs_lon_deg := 0; gs_alt_m := 0;
     gs_mask_deg := None |}.

Definition sat_with (n : string) (times : list Time) (events : list Z) : EarthSatellite :=
  {| name := Some n;
     find_events := fun _ _ _ _ => (times, events);
     altaz_alt_degrees := fun _ _ => 45%Q |}.

Definition sat0 : EarthSatellite :=
  sat_with "SAT-A" [time_at 0; time_at 300000000; time_at 600000000] [0; 1; 2].

Definition fromisoformat0 (ts : string) : result datetime :=
  Ok {| wall_us := 0; tzinfo := Some 0 |}.

Definition local_utcoffset0 (wall : Z) : result Z := Ok 0.

Definition tle_of (sats : list EarthSatellite) (url : string)
  : result (list EarthSatellite) := Ok sats.

Definition satellite_of_tle0 (tle1 tle2 n : string) : result EarthSatellite :=
  Ok (sat_with n [] []).

(** Summation from left to right. *)
Definition column_sum0 (l : list Q) : Q := fold_left Qplus l 0%Q.

Definition cfg_with (min_dur : option Q) : Config :=
  {| time_start_utc := "2025-01-01T00:00:00Z";
     time_end_utc := "2025-01-02T00:00:00Z";
     link_downlink_mbps := 10;
     link_efficiency := 8 # 10;
     analysis_min_pass_duration_s := min_dur;
     satellites := [ {| cfg_name := Some "SAT-A"%string;
                        cfg_tle_url := Some "https://example.org/sat.tle"%string;
                        cfg_tle1 := None; cfg_tle2 := None |} ];
     ground_stations := [gs0] |}.

(** A pass of 10.04 s. *)
Definition sat_short : EarthSatellite :=
  sat_with "SAT-A" [time_at 0; time_at 5020000; time_at 10040000] [0; 1; 2].

(** A stream whose set precedes its rise. *)
Definition times_backwards : list Time :=
  [time_at 100000000; time_at 50000000; time_at 0].

(** Two passes, an hour and a half apart. *)
Definition times_two_passes : list Time :=
  [time_at 0; time_at 300000000; time_at 600000000;
   time_at 5400000000; time_at 5700000000; time_at 6000000000].








(** A parser that knows two texts: the first instant of year 1 written
    five hours east of UTC, and a day of 2025 written in UTC. *)
Definition fromisoformat1 (ts : string) : result datetime :=
  if String.eqb ts "0001-01-01T00:00:00+05:00"
  then Ok {| wall_us := 0; tzinfo := Some 18000000000 |}
  else if String.eqb ts "2025-01-01T00:00:00+00:00"
  then Ok {| wall_us := 739251 * 86400000000; tzinfo := Some 0 |}
  else Raise ValueError.

(** ** Further vocabulary *)

(** A stream made of whole passes only: the times and the event codes of a
    list of (rise, culmination, set) triples. *)
Definition triple_times (triples : list (Time * Time * Time)) : list Time :=
  flat_map (fun tr => [fst (fst tr); snd (fst tr); snd tr]) triples.

Definition triple_codes (triples : list (Time * Time * Time)) : list Z :=
  flat_map (fun _ => [0; 1; 2]) triples.

(** The triples that the duration filter keeps. *)
Definition kept (min_dur_s : Q) (triples : list (Time * Time * Time))
  : list (Time * Time * Time) :=
  filter (fun tr => negb (Qltb (pass_seconds (fst (fst tr)) (snd tr)) min_dur_s))
    triples.

(** The row is one the loops build: for a satellite resolved from one of
    the entries [sats], a station of [stations], the given link parameters,
    and a triple of the stream of that pair over the window [t0], [t1]
    whose duration is not below the minimum. *)
Definition built
    (tle_file : string -> result (list EarthSatellite))
    (EarthSatellite_of_tle : string -> string -> string -> result EarthSatellite)
    (sats : list SatCfg) (stations : list GroundStation) (t0 t1 : Z)
    (mbps eff min_dur_s : Q) (p : PassRow) : Prop :=
  exists sat_cfg sat gs e,
    In sat_cfg sats /\
    make_satellite tle_file EarthSatellite_of_tle sat_cfg = Ok sat /\
    In gs stations /\
    emitted min_dur_s
      (fst (find_events sat (latlon (gs_lat_deg gs) (gs_lon_deg gs) (gs_alt_m gs))
              t0 t1 (dict_get (gs_mask_deg gs) 0%Q)))
      (snd (find_events sat (latlon (gs_lat_deg gs) (gs_lon_deg gs) (gs_alt_m gs))
              t0 t1 (dict_get (gs_mask_deg gs) 0%Q))) e /\
    p = pass_row sat gs (latlon (gs_lat_deg gs) (gs_lon_deg gs) (gs_alt_m gs))
          (dict_get (gs_mask_deg gs) 0%Q) mbps eff (t_rise e) (t_culm e) (t_set e).

(** The entity has a name, and it is not [target] once stripped. *)
Definition other_name (target : string) (x : EarthSatellite) : Prop :=
  exists n, name x = Some n /\ strip n <> target.

(** ** Further fixtures *)

Definition row0 : PassRow :=
  pass_row sat0 gs0 geo0 0 10 (8 # 10)
    (time_at 0) (time_at 300000000) (time_at 600000000).

Definition row1 : PassRow :=
  pass_row sat0 gs0 geo0 0 10 (8 # 10)
    (time_at 5400000000) (time_at 5700000000) (time_at 6000000000).

Definition cfg_no_satellites : Config :=
  {| time_start_utc := "2025-01-01T00:00:00Z";
     time_end_utc := "2025-01-02T00:00:00Z";
     link_downlink_mbps := 10;
     link_efficiency := 8 # 10;
     analysis_min_pass_duration_s := None;
     satellites := [];
     ground_stations := [gs0] |}.

(** * Properties *)

(** ** Sequences *)

Lemma getitem_nth {A : Type} (l : list A) (i : Z) :
  0 <= i < Z.of_nat (length l) ->
  exists a, getitem l i = Ok a /\ nth_error l (Z.to_nat i) = Some a.
Proof.
  intros Hi. unfold getitem.
  destruct (i <? 0) eqn:Hneg; [apply Z.ltb_lt in Hneg; lia|].
  replace ((0 <=? i) && (i <? Z.of_nat (length l))) with true.
  - destruct (nth_error l (Z.to_nat i)) as [a|] eqn:Hn.
    + exists a; split; reflexivity.
    + apply nth_error_None in Hn. lia.
  - symmetry. apply andb_true_iff. split; [apply Z.leb_le | apply Z.ltb_lt]; lia.
Qed.

Lemma getitem_Ok_nth {A : Type} (l : list A) (i : Z) (a : A) :
  0 <= i -> getitem l i = Ok a ->
  i < Z.of_nat (length l) /\ nth_error l (Z.to_nat i) = Some a.
Proof.
  intros Hi. unfold getitem.
  destruct (i <? 0) eqn:Hneg; [apply Z.ltb_lt in Hneg; lia|].
  destruct ((0 <=? i) && (i <? Z.of_nat (length l))) eqn:Hr; [|discriminate].
  apply andb_true_iff in Hr. destruct Hr as [_ Hr]. apply Z.ltb_lt in Hr.
  destruct (nth_error l (Z.to_nat i)); [|discriminate].
  intros H; inversion H; subst. split; [lia | reflexivity].
Qed.

Lemma getitem_In {A : Type} (l : list A) (i : Z) (a : A) :
  0 <= i -> getitem l i = Ok a -> In a l.
Proof.
  intros Hi H. destruct (getitem_Ok_nth l i a Hi H) as [_ Hn].
  eapply nth_error_In. exact Hn.
Qed.

Lemma getitem_head0 {A : Type} (x : A) (l : list A) : getitem (x :: l) 0 = Ok x.
Proof.
  destruct (getitem_nth (x :: l) 0) as [a [Ha Hn]]; [simpl length; lia|].
  simpl in Hn. congruence.
Qed.

Lemma getitem_app_left {A : Type} (l l' : list A) (i : Z) :
  0 <= i < Z.of_nat (length l) -> getitem (l ++ l') i = getitem l i.
Proof.
  intros Hi.
  destruct (getitem_nth l i Hi) as [a [Ha Hn]]. rewrite Ha.
  destruct (getitem_nth (l ++ l') i) as [b [Hb Hm]].
  { rewrite length_app. lia. }
  rewrite Hb. rewrite nth_error_app1 in Hm by lia. congruence.
Qed.

Lemma getitem_app_last {A : Type} (l : list A) (a : A) :
  getitem (l ++ [a]) (Z.of_nat (length l)) = Ok a.
Proof.
  destruct (getitem_nth (l ++ [a]) (Z.of_nat (length l))) as [b [Hb Hm]].
  { rewrite length_app. simpl. lia. }
  rewrite Hb. rewrite Nat2Z.id, nth_error_app2, Nat.sub_diag in Hm by lia.
  simpl in Hm. congruence.
Qed.

Lemma StronglySorted_map {A B : Type} (f : A -> B) (R : B -> B -> Prop) (l : list A) :
  StronglySorted (fun x y => R (f x) (f y)) l -> StronglySorted R (map f l).
Proof.
  induction 1 as [|x l Hl IH Hall]; simpl; constructor; [exact IH|].
  rewrite Forall_map. exact Hall.
Qed.

(** ** Rounding *)

Lemma round_half_even_bounds (x : Q) :
  (inject_Z (round_half_even x) - (1 # 2) <= x)%Q /\
  (x <= inject_Z (round_half_even x) + (1 # 2))%Q.
Proof.
  unfold round_half_even.
  pose proof (Qfloor_le x) as Hlo. pose proof (Qlt_floor x) as Hhi.
  rewrite inject_Z_plus in Hhi. change (inject_Z 1) with 1%Q in Hhi.
  destruct (x - inject_Z (Qfloor x) ?= 1 # 2)%Q eqn:Hc.
  - apply Qeq_alt in Hc. destruct (Z.even (Qfloor x));
      try rewrite inject_Z_plus; change (inject_Z 1) with 1%Q; split; lra.
  - apply Qlt_alt in Hc. split; lra.
  - apply Qgt_alt in Hc. rewrite inject_Z_plus. change (inject_Z 1) with 1%Q.
    split; lra.
Qed.

Lemma round_half_even_mono (x y : Q) :
  (x <= y)%Q -> round_half_even x <= round_half_even y.
Proof.
  intros Hxy.
  pose proof (Qfloor_resp_le x y Hxy) as Hf.
  pose proof (Qfloor_le x) as Hxl. pose proof (Qlt_floor x) as Hxh.
  pose proof (Qfloor_le y) as Hyl. pose proof (Qlt_floor y) as Hyh.
  rewrite inject_Z_plus in Hxh, Hyh. change (inject_Z 1) with 1%Q in Hxh, Hyh.
  assert (Hx : Qfloor x <= round_half_even x <= Qfloor x + 1).
  { unfold round_half_even.
    destruct (x - inject_Z (Qfloor x) ?= 1 # 2)%Q; try destruct (Z.even _); lia. }
  assert (Hy : Qfloor y <= round_half_even y <= Qfloor y + 1).
  { unfold round_half_even.
    destruct (y - inject_Z (Qfloor y) ?= 1 # 2)%Q; try destruct (Z.even _); lia. }
  destruct (Z.eq_dec (Qfloor x) (Qfloor y)) as [Heq|Hne]; [|lia].
  unfold round_half_even. rewrite <- Heq. rewrite <- Heq in Hyl, Hyh.
  destruct (x - inject_Z (Qfloor x) ?= 1 # 2)%Q eqn:Hcx;
    destruct (y - inject_Z (Qfloor x) ?= 1 # 2)%Q eqn:Hcy;
    try destruct (Z.even (Qfloor x)); try lia; exfalso;
    first [apply Qeq_alt in Hcx | apply Qlt_alt in Hcx | apply Qgt_alt in Hcx];
    first [apply Qeq_alt in Hcy | apply Qlt_alt in Hcy | apply Qgt_alt in Hcy];
    lra.
Qed.

Lemma pow10_pos (n : nat) : (0 < inject_Z (10 ^ Z.of_nat n))%Q.
Proof.
  replace 0%Q with (inject_Z 0) by reflexivity. rewrite <- Zlt_Qlt.
  apply Z.pow_pos_nonneg; lia.
Qed.

(** [round] is monotone. *)
Lemma round_mono (x y : Q) (n : nat) : (x <= y)%Q -> (round x n <= round y n)%Q.
Proof.
  intros Hxy. unfold round.
  pose proof (pow10_pos n) as Hp.
  set (p := inject_Z (10 ^ Z.of_nat n)) in *.
  apply Qmult_le_compat_r.
  - rewrite <- Zle_Qle. apply round_half_even_mono.
    apply Qmult_le_compat_r; [exact Hxy | lra].
  - apply Qlt_le_weak. apply Qinv_lt_0_compat. exact Hp.
Qed.

(** [round x 1] is within a twentieth of [x]. *)
Lemma round_1_near (x : Q) :
  (x - (1 # 20) <= round x 1)%Q /\ (round x 1 <= x + (1 # 20))%Q.
Proof.
  unfold round. change (inject_Z (10 ^ Z.of_nat 1)) with 10%Q.
  destruct (round_half_even_bounds (x * 10)) as [H1 H2].
  revert H1 H2. generalize (inject_Z (round_half_even (x * 10))).
  intros k H1 H2. split.
  - apply Qle_shift_div_l; lra.
  - apply Qle_shift_div_r; lra.
Qed.

(** ** The event scan *)

Section ScanProperties.

Variable sat : EarthSatellite.
Variable gs : GroundStation.
Variable geo : GeographicPosition.
Variable mask : Q.
Variable cfg_downlink_mbps : Q.
Variable cfg_efficiency : Q.
Variable min_dur_s : Q.
Variable times : list Time.
Variable events : list Z.

Local Abbreviation body := (loop_body sat gs geo mask cfg_downlink_mbps cfg_efficiency min_dur_s times events).
Local Abbreviation loop := (while_loop sat gs geo mask cfg_downlink_mbps cfg_efficiency min_dur_s times events).
Local Abbreviation run := (unroll sat gs geo mask cfg_downlink_mbps cfg_efficiency min_dur_s times events).
Local Abbreviation row := (pass_row sat gs geo mask cfg_downlink_mbps cfg_efficiency).
Local Abbreviation cond := (loop_cond events).
Local Abbreviation len := (Z.of_nat (length events)).

Lemma while_loop_eq (st : ScanState) :
  loop st =
  if cond st then
    match body st with
    | Raise e => Raise e
    | Ok st' => loop st'
    end
  else Ok st.
Proof.
  funelim (loop st);
    repeat match goal with
           | Hc : loop_cond _ _ = _ |- _ => rewrite Hc
           | Hb : loop_body _ _ _ _ _ _ _ _ _ _ = _ |- _ => rewrite Hb
           end; reflexivity.
Qed.

Local Abbreviation row_of := (fun e : Emission => row (t_rise e) (t_culm e) (t_set e)).

Lemma body_advances (st st' : ScanState) :
  body st = Ok st' -> fst st' = fst st + 3 \/ fst st' = fst st + 1.
Proof.
  destruct st as [i rows]. unfold loop_body.
  destruct (is_triple events i) as [[|]|]; simpl; try discriminate.
  - destruct (getitem times i); simpl; try discriminate.
    destruct (getitem times (i + 1)); simpl; try discriminate.
    destruct (getitem times (i + 2)); simpl; try discriminate.
    destruct (Qltb _ _); intros H; inversion H; subst; simpl; auto.
  - intros H; inversion H; subst; simpl; auto.
Qed.

Lemma is_triple_cases (i : Z) :
  0 <= i -> i + 2 < len ->
  (is_triple events i = Ok true /\
   getitem events i = Ok 0 /\ getitem events (i + 1) = Ok 1 /\
   getitem events (i + 2) = Ok 2) \/
  is_triple events i = Ok false.
Proof.
  intros Hi Hlen. unfold is_triple.
  destruct (getitem_nth events i) as [e0 [H0 _]]; [lia|].
  destruct (getitem_nth events (i + 1)) as [e1 [H1 _]]; [lia|].
  destruct (getitem_nth events (i + 2)) as [e2 [H2 _]]; [lia|].
  rewrite H0; simpl.
  destruct (e0 =? 0) eqn:E0; [|right; reflexivity].
  rewrite H1; simpl.
  destruct (e1 =? 1) eqn:E1; [|right; reflexivity].
  rewrite H2; simpl.
  destruct (e2 =? 2) eqn:E2; [|right; reflexivity].
  apply Z.eqb_eq in E0, E1, E2. subst. left. auto.
Qed.

(** The three ways an iteration that returns can go. *)
Lemma body_Ok_cases (i : Z) (rows : list PassRow) (st' : ScanState) :
  0 <= i -> i + 2 < len -> body (i, rows) = Ok st' ->
  (is_triple events i = Ok false /\ st' = (i + 1, rows)) \/
  (exists tr tc ts,
      is_triple events i = Ok true /\
      getitem times i = Ok tr /\ getitem times (i + 1) = Ok tc /\
      getitem times (i + 2) = Ok ts /\
      Qltb (pass_seconds tr ts) min_dur_s = true /\
      st' = (i + 3, rows)) \/
  (exists e, pos e = i /\ emitted min_dur_s times events e /\
      st' = (i + 3, rows ++ [row_of e])).
Proof.
  intros Hi Hlen. unfold loop_body.
  destruct (is_triple_cases i Hi Hlen) as [[Ht [E0 [E1 E2]]] | Ht]; rewrite Ht; simpl.
  - destruct (getitem times i) as [tr|] eqn:Hr; simpl; [|discriminate].
    destruct (getitem times (i + 1)) as [tc|] eqn:Hc; simpl; [|discriminate].
    destruct (getitem times (i + 2)) as [ts|] eqn:Hs; simpl; [|discriminate].
    destruct (Qltb (pass_seconds tr ts) min_dur_s) eqn:Hd;
      intros H; inversion H; subst; right.
    + left. exists tr, tc, ts. repeat split; auto.
    + right. exists (mk_Emission i tr tc ts). simpl.
      split; [reflexivity|]. split; [|reflexivity].
      unfold emitted; simpl. repeat split; auto.
      unfold Qltb in Hd. apply negb_false_iff in Hd.
      apply Qle_bool_iff in Hd. exact Hd.
  - intros H; inversion H; subst. left. auto.
Qed.

(** On aligned arrays an iteration returns. *)
Lemma body_no_raise (i : Z) (rows : list PassRow) :
  aligned times events -> 0 <= i -> i + 2 < len ->
  exists st', body (i, rows) = Ok st'.
Proof.
  intros Hal Hi Hlen. unfold aligned in Hal. unfold loop_body.
  destruct (is_triple_cases i Hi Hlen) as [[Ht _] | Ht]; rewrite Ht; simpl.
  - destruct (getitem_nth times i) as [tr [Hr _]]; [lia|].
    destruct (getitem_nth times (i + 1)) as [tc [Hc _]]; [lia|].
    destruct (getitem_nth times (i + 2)) as [ts [Hs _]]; [lia|].
    rewrite Hr; simpl. rewrite Hc; simpl. rewrite Hs; simpl.
    destruct (Qltb _ _); eexists; reflexivity.
  - eexists; reflexivity.
Qed.

(** Enough iterations: the unrolled loop is the loop. *)
Lemma unroll_enough (fuel : nat) :
  forall st, (Z.to_nat (len - fst st) <= fuel)%nat -> run fuel st = Some (loop st).
Proof.
  induction fuel as [|fuel IH]; intros st Hm; rewrite while_loop_eq; simpl;
    destruct (loop_cond events st) eqn:Hc; try reflexivity.
  - unfold loop_cond in Hc. apply Z.ltb_lt in Hc. lia.
  - destruct (body st) as [st'|e] eqn:Hb; [|reflexivity].
    apply IH. unfold loop_cond in Hc. apply Z.ltb_lt in Hc.
    destruct (body_advances _ _ Hb); lia.
Qed.

(** A run with iterations to spare is the loop as well. *)
Lemma unroll_loop (fuel : nat) :
  forall st r, run fuel st = Some r -> loop st = r.
Proof.
  induction fuel as [|fuel IH]; intros st r; rewrite while_loop_eq; simpl;
    destruct (loop_cond events st); try discriminate;
    try (intros H; inversion H; reflexivity).
  destruct (body st) as [st'|e]; [apply IH|].
  intros H; inversion H; reflexivity.
Qed.

Lemma spaced_weaken (es : list Emission) (a b : Z) :
  a <= b -> spaced b es -> spaced a es.
Proof. destruct es; simpl; auto. intros Hab [H1 H2]. split; [lia | exact H2]. Qed.

(** What a returning loop appends is the rows of a spaced list of
    accepted triples, and it stops with fewer than three events left. *)
Lemma loop_Ok_emits (n : nat) :
  forall st st', (Z.to_nat (len - fst st) <= n)%nat -> 0 <= fst st ->
    loop st = Ok st' ->
    exists es,
      snd st' = snd st ++ map row_of es /\
      spaced (fst st) es /\
      Forall (emitted min_dur_s times events) es /\
      len - 2 <= fst st'.
Proof.
  induction n as [|n IH]; intros [i rows] st' Hm Hi; simpl in Hm, Hi;
    rewrite while_loop_eq; unfold loop_cond; cbn [fst snd];
    destruct (i <? len - 2) eqn:Hc;
    try (apply Z.ltb_lt in Hc); try (apply Z.ltb_ge in Hc); try lia;
    try (intros H; inversion H; subst; exists []; simpl; rewrite app_nil_r;
         repeat split; auto; lia).
  destruct (body (i, rows)) as [st1|] eqn:Hb; [|discriminate].
  intros Hl.
  destruct (body_Ok_cases i rows st1) as [[_ ->] | [(tr & tc & ts & _ & _ & _ & _ & _ & ->) | (e & He & Hem & ->)]];
    try lia; auto;
    apply IH in Hl; simpl; try lia;
    destruct Hl as (es & Hr & Hs & Hf & Hce); simpl in *.
  - exists es. repeat split; auto. apply spaced_weaken with (b := i + 1); [lia | exact Hs].
  - exists es. repeat split; auto. apply spaced_weaken with (b := i + 3); [lia | exact Hs].
  - exists (e :: es). simpl. rewrite <- app_assoc in Hr. simpl in Hr.
    repeat split; auto; try lia. rewrite He. exact Hs.
Qed.

(** On aligned arrays the loop returns. *)
Lemma loop_no_raise (n : nat) :
  forall st, (Z.to_nat (len - fst st) <= n)%nat -> aligned times events ->
    0 <= fst st -> exists st', loop st = Ok st'.
Proof.
  induction n as [|n IH]; intros [i rows] Hm Hal Hi; simpl in Hm, Hi;
    rewrite while_loop_eq; unfold loop_cond; cbn [fst snd];
    destruct (i <? len - 2) eqn:Hc;
    try (apply Z.ltb_lt in Hc); try (apply Z.ltb_ge in Hc); try lia;
    try (eexists; reflexivity).
  destruct (body_no_raise i rows Hal Hi) as [st1 Hb]; [lia|].
  rewrite Hb. apply IH; auto.
  - destruct (body_advances _ _ Hb) as [H|H]; rewrite H; simpl; lia.
  - destruct (body_advances _ _ Hb) as [H|H]; rewrite H; simpl; lia.
Qed.

(** The scan of a pair, when it returns, appends the rows of accepted,
    spaced triples. *)
Lemma scan_Ok_emits (rows rows' : list PassRow) :
  scan_events sat gs geo mask cfg_downlink_mbps cfg_efficiency min_dur_s
    times events rows = Ok rows' ->
  exists es,
    rows' = rows ++ map row_of es /\ spaced 0 es /\
    Forall (emitted min_dur_s times events) es.
Proof.
  unfold scan_events. destruct (loop (0, rows)) as [st'|] eqn:Hl; simpl; [|discriminate].
  intros H; inversion H; subst.
  destruct (loop_Ok_emits (Z.to_nat len) (0, rows) st') as (es & Hr & Hs & Hf & _);
    simpl; auto; try lia.
  exists es. auto.
Qed.

Lemma scan_no_raise (rows : list PassRow) :
  aligned times events ->
  exists rows',
    scan_events sat gs geo mask cfg_downlink_mbps cfg_efficiency min_dur_s
      times events rows = Ok rows'.
Proof.
  intros Hal.
  destruct (loop_no_raise (Z.to_nat len) (0, rows)) as [st' Hl]; simpl; auto; try lia.
  unfold scan_events. rewrite Hl. simpl. eexists; reflexivity.
Qed.

Lemma body_filtered (i : Z) (rows : list PassRow) (tr tc ts : Time) :
  is_triple events i = Ok true ->
  getitem times i = Ok tr -> getitem times (i + 1) = Ok tc ->
  getitem times (i + 2) = Ok ts ->
  (pass_seconds tr ts < min_dur_s)%Q ->
  body (i, rows) = Ok (i + 3, rows).
Proof.
  intros Ht Hr Hc Hs Hd. unfold loop_body.
  rewrite Ht; simpl. rewrite Hr; simpl. rewrite Hc; simpl. rewrite Hs; simpl.
  replace (Qltb (pass_seconds tr ts) min_dur_s) with true; [reflexivity|].
  symmetry. unfold Qltb. apply negb_true_iff.
  destruct (Qle_bool min_dur_s (pass_seconds tr ts)) eqn:E; [|reflexivity].
  apply Qle_bool_iff in E. lra.
Qed.

Lemma body_skips (i : Z) (rows : list PassRow) :
  is_triple events i = Ok false -> body (i, rows) = Ok (i + 1, rows).
Proof. intros Ht. unfold loop_body. rewrite Ht. reflexivity. Qed.

Lemma spaced_sorted (es : list Emission) (from : Z) :
  spaced from es ->
  Forall (fun e => from <= pos e) es /\
  StronglySorted (fun e1 e2 => pos e1 + 3 <= pos e2) es.
Proof.
  revert from. induction es as [|e es IH]; intros from; simpl.
  - intros _. split; constructor.
  - intros [H1 H2]. destruct (IH _ H2) as [Hall Hsort]. split.
    + constructor; [exact H1|].
      eapply Forall_impl; [|exact Hall]. simpl. intros; lia.
    + constructor; assumption.
Qed.

(** C9. The event-scan loop terminates on every finite event sequence:
    an iteration entered at cursor [i] returns with the cursor at [i + 3]
    or [i + 1], still bounded by the length of the sequence, so the
    distance to the bound strictly decreases; hence from every state the
    loop is over after at most that many iterations, and the scan started
    at [i = 0] after at most [len(events)] iterations. *)
Theorem scan_loop_terminates (rows : list PassRow) :
  (forall st st', cond st = true -> body st = Ok st' ->
      (fst st' = fst st + 3 \/ fst st' = fst st + 1) /\
      fst st' <= len /\
      (Z.to_nat (len - fst st') < Z.to_nat (len - fst st))%nat) /\
  (forall st, run (Z.to_nat (len - fst st)) st = Some (loop st)) /\
  run (length events) (0, rows) = Some (loop (0, rows)).
Proof.
  split; [|split].
  - intros st st' Hc Hb. unfold loop_cond in Hc. apply Z.ltb_lt in Hc.
    pose proof (body_advances _ _ Hb) as Ha.
    split; [exact Ha|]. destruct Ha as [Ha|Ha]; rewrite Ha; lia.
  - intros st. apply unroll_enough. lia.
  - apply unroll_enough. simpl. lia.
Qed.

(** C10. The passes of one pair come from triples at strictly increasing
    cursor positions, at least three apart, so no event belongs to two
    passes, and the rows are appended in that order; when the stream is
    chronological, each pass sets no later than the next one rises, and
    rise times never decrease. *)
Theorem passes_disjoint_ordered (rows rows' : list PassRow) :
  scan_events sat gs geo mask cfg_downlink_mbps cfg_efficiency min_dur_s
    times events rows = Ok rows' ->
  exists es,
    rows' = rows ++ map row_of es /\
    Forall (emitted min_dur_s times events) es /\
    StronglySorted (fun e1 e2 => pos e1 + 3 <= pos e2) es /\
    (chronological times ->
     StronglySorted
       (fun e1 e2 =>
          utc_datetime (t_rise e1) <= utc_datetime (t_rise e2) /\
          utc_datetime (t_set e1) <= utc_datetime (t_rise e2)) es /\
     ((forall a b, In a times -> In b times ->
         utc_datetime a <= utc_datetime b -> utc_iso a <= utc_iso b) ->
      StronglySorted
        (fun r1 r2 => aos_utc r1 <= aos_utc r2 /\ los_utc r1 <= aos_utc r2)
        (map row_of es))).
Proof.
  intros Hs. destruct (scan_Ok_emits _ _ Hs) as (es & Hr & Hsp & Hf).
  exists es. split; [exact Hr|]. split; [exact Hf|].
  destruct (spaced_sorted es 0 Hsp) as [_ Hsort]. split; [exact Hsort|].
  intros Hch. clear Hr Hsp Hs.
  assert (Hord : StronglySorted
            (fun e1 e2 =>
               utc_datetime (t_rise e1) <= utc_datetime (t_rise e2) /\
               utc_datetime (t_set e1) <= utc_datetime (t_rise e2)) es).
  { induction Hsort as [|e es Hsort IH Hall]; [constructor|].
    inversion Hf as [|? ? He Hes]; subst.
    constructor; [apply IH; exact Hes|].
    rewrite Forall_forall in *. intros e2 Hin.
    specialize (Hall e2 Hin). specialize (Hes e2 Hin).
    unfold emitted in He, Hes.
    destruct He as (Hp & _ & _ & _ & _ & Hr1 & _ & Hs1 & _).
    destruct Hes as (Hp2 & _ & _ & _ & _ & Hr2 & _).
    split.
    + apply (Hch (pos e) (pos e2)); auto; lia.
    + apply (Hch (pos e + 2) (pos e2)); auto; lia. }
  split; [exact Hord|].
  intros Hiso. apply StronglySorted_map. simpl.
  clear Hsort. induction Hord as [|e es Hord IH Hall]; [constructor|].
  inversion Hf as [|? ? He Hes]; subst.
  constructor; [apply IH; exact Hes|].
  rewrite Forall_forall in *. intros e2 Hin.
  destruct (Hall e2 Hin) as [H1 H2]. specialize (Hes e2 Hin).
  unfold emitted in He, Hes.
  destruct He as (Hp & _ & _ & _ & _ & Hr1 & _ & Hs1 & _).
  destruct Hes as (Hp2 & _ & _ & _ & _ & Hr2 & _).
  split; apply Hiso; auto.
  - apply (getitem_In times (pos e)); assumption.
  - apply (getitem_In times (pos e2)); assumption.
  - apply (getitem_In times (pos e + 2)); [lia | assumption].
  - apply (getitem_In times (pos e2)); assumption.
Qed.

(** C1 (as the code has it). On the arrays that [find_events] returns the
    scan never raises, whatever the sequence; a rise/culmination/set
    triple whose duration is negative is handled like any other short
    candidate: with a minimum duration of zero or more it is dropped
    without a row and the cursor moves past it. *)
Theorem scan_never_raises (rows : list PassRow) :
  aligned times events ->
  (exists rows',
    scan_events sat gs geo mask cfg_downlink_mbps cfg_efficiency min_dur_s
      times events rows = Ok rows') /\
  (forall i rows0 tr tc ts,
    is_triple events i = Ok true ->
    getitem times i = Ok tr -> getitem times (i + 1) = Ok tc ->
    getitem times (i + 2) = Ok ts ->
    (pass_seconds tr ts < 0)%Q -> (0 <= min_dur_s)%Q ->
    body (i, rows0) = Ok (i + 3, rows0)).
Proof.
  intros Hal. split; [apply scan_no_raise; exact Hal|].
  intros i rows0 tr tc ts Ht Hr Hc Hs Hneg Hmin.
  apply (body_filtered i rows0 tr tc ts); auto. lra.
Qed.

End ScanProperties.

(** *** A trailing event that is not a set *)

Section TrailingEvent.

Variable sat : EarthSatellite.
Variable gs : GroundStation.
Variable geo : GeographicPosition.
Variable mask : Q.
Variable cfg_downlink_mbps : Q.
Variable cfg_efficiency : Q.
Variable min_dur_s : Q.
Variable times : list Time.
Variable events : list Z.
Variable t : Time.
Variable k : Z.

Hypothesis not_a_set : k <> 2.
Hypothesis times_aligned : aligned times events.

Local Abbreviation len := (Z.of_nat (length events)).
Local Abbreviation body := (loop_body sat gs geo mask cfg_downlink_mbps cfg_efficiency min_dur_s times events).
Local Abbreviation loop := (while_loop sat gs geo mask cfg_downlink_mbps cfg_efficiency min_dur_s times events).
Local Abbreviation body_ext := (loop_body sat gs geo mask cfg_downlink_mbps cfg_efficiency min_dur_s (times ++ [t]) (events ++ [k])).
Local Abbreviation loop_ext := (while_loop sat gs geo mask cfg_downlink_mbps cfg_efficiency min_dur_s (times ++ [t]) (events ++ [k])).

Lemma length_extended : Z.of_nat (length (events ++ [k])) = len + 1.
Proof. rewrite length_app. simpl. lia. Qed.

Lemma is_triple_extended (i : Z) :
  0 <= i -> i + 2 < len -> is_triple (events ++ [k]) i = is_triple events i.
Proof.
  intros Hi Hlen. unfold is_triple. rewrite !getitem_app_left by lia. reflexivity.
Qed.

Lemma body_extended (i : Z) (rows : list PassRow) :
  0 <= i -> i + 2 < len -> body_ext (i, rows) = body (i, rows).
Proof.
  intros Hi Hlen. unfold aligned in times_aligned. unfold loop_body.
  rewrite is_triple_extended by lia.
  rewrite !(getitem_app_left times) by lia. reflexivity.
Qed.

Lemma is_triple_at_end (i : Z) :
  0 <= i -> i + 2 = len -> is_triple (events ++ [k]) i = Ok false.
Proof.
  intros Hi Hlen. unfold is_triple.
  destruct (getitem_nth (events ++ [k]) i) as [e0 [H0 _]];
    [rewrite length_extended; lia|].
  destruct (getitem_nth (events ++ [k]) (i + 1)) as [e1 [H1 _]];
    [rewrite length_extended; lia|].
  rewrite H0; simpl. destruct (e0 =? 0); [|reflexivity].
  rewrite H1; simpl. destruct (e1 =? 1); [|reflexivity].
  rewrite Hlen, getitem_app_last. simpl.
  replace (k =? 2) with false; [reflexivity|].
  symmetry. apply Z.eqb_neq. exact not_a_set.
Qed.

(** The rows are those of the stream without the trailing event. *)
Lemma loop_extended (n : nat) :
  forall st, (Z.to_nat (len - fst st) <= n)%nat -> 0 <= fst st ->
    (s <- loop_ext st ;; Ok (snd s)) = (s <- loop st ;; Ok (snd s)).
Proof.
  induction n as [|n IH]; intros [i rows] Hm Hi; simpl in Hm, Hi;
    rewrite (while_loop_eq _ _ _ _ _ _ _ times events),
            (while_loop_eq _ _ _ _ _ _ _ (times ++ [t]) (events ++ [k]));
    unfold loop_cond; rewrite length_extended; cbn [fst snd];
    destruct (i <? len - 2) eqn:Hc;
    try (apply Z.ltb_lt in Hc); try (apply Z.ltb_ge in Hc); try lia.
  - destruct (i <? len + 1 - 2) eqn:Hc'; [|reflexivity].
    apply Z.ltb_lt in Hc'.
    rewrite (body_skips _ _ _ _ _ _ _ _ _ i rows) by (apply is_triple_at_end; lia).
    rewrite (while_loop_eq _ _ _ _ _ _ _ (times ++ [t]) (events ++ [k])).
    unfold loop_cond; rewrite length_extended; cbn [fst snd].
    replace (i + 1 <? len + 1 - 2) with false; [reflexivity|].
    symmetry. apply Z.ltb_ge. lia.
  - replace (i <? len + 1 - 2) with true by (symmetry; apply Z.ltb_lt; lia).
    rewrite body_extended by lia.
    destruct (body (i, rows)) as [st1|e] eqn:Hb; [|reflexivity].
    apply IH.
    + destruct (body_advances _ _ _ _ _ _ _ _ _ _ _ Hb) as [H|H]; rewrite H; simpl; lia.
    + destruct (body_advances _ _ _ _ _ _ _ _ _ _ _ Hb) as [H|H]; rewrite H; simpl; lia.
  - destruct (i <? len + 1 - 2) eqn:Hc'; [|reflexivity].
    apply Z.ltb_lt in Hc'.
    rewrite (body_skips _ _ _ _ _ _ _ _ _ i rows) by (apply is_triple_at_end; lia).
    rewrite (while_loop_eq _ _ _ _ _ _ _ (times ++ [t]) (events ++ [k])).
    unfold loop_cond; rewrite length_extended; cbn [fst snd].
    replace (i + 1 <? len + 1 - 2) with false; [reflexivity|].
    symmetry. apply Z.ltb_ge. lia.
Qed.

Lemma scan_extended (rows : list PassRow) :
  scan_events sat gs geo mask cfg_downlink_mbps cfg_efficiency min_dur_s
    (times ++ [t]) (events ++ [k]) rows
  = scan_events sat gs geo mask cfg_downlink_mbps cfg_efficiency min_dur_s
      times events rows.
Proof.
  unfold scan_events. apply (loop_extended (Z.to_nat len)); simpl; lia.
Qed.

End TrailingEvent.

(** C7. The scan stops exactly when fewer than three events remain at or
    after the cursor; a sequence of length 0, 1 or 2 yields no pass; every
    pass the scan yields is built from a complete rise/culmination/set
    triple lying wholly inside the sequence; and a trailing event that is
    not a set (a final unmatched rise), or two of them (a rise and a
    culmination with no set), add no pass to what the sequence without
    them yields. *)
Theorem trailing_fragment_dropped
    (sat : EarthSatellite) (gs : GroundStation) (geo : GeographicPosition)
    (mask mbps eff min_dur_s : Q) (times : list Time) (events : list Z)
    (rows : list PassRow) :
  (forall st, loop_cond events st = false <-> Z.of_nat (length events) - fst st < 3) /\
  ((length events <= 2)%nat ->
    scan_events sat gs geo mask mbps eff min_dur_s times events rows = Ok rows) /\
  (forall rows',
    scan_events sat gs geo mask mbps eff min_dur_s times events rows = Ok rows' ->
    exists es,
      rows' = rows ++ map (fun e => pass_row sat gs geo mask mbps eff
                                      (t_rise e) (t_culm e) (t_set e)) es /\
      Forall (fun e => 0 <= pos e /\ pos e + 2 < Z.of_nat (length events) /\
                getitem events (pos e) = Ok 0 /\
                getitem events (pos e + 1) = Ok 1 /\
                getitem events (pos e + 2) = Ok 2) es) /\
  (aligned times events ->
   (forall t k, k <> 2 ->
      scan_events sat gs geo mask mbps eff min_dur_s
        (times ++ [t]) (events ++ [k]) rows
      = scan_events sat gs geo mask mbps eff min_dur_s times events rows) /\
   (forall t1 t2 k1 k2, k1 <> 2 -> k2 <> 2 ->
      scan_events sat gs geo mask mbps eff min_dur_s
        ((times ++ [t1]) ++ [t2]) ((events ++ [k1]) ++ [k2]) rows
      = scan_events sat gs geo mask mbps eff min_dur_s times events rows)).
Proof.
  split; [|split; [|split]].
  - intros st. unfold loop_cond. rewrite Z.ltb_ge. lia.
  - intros Hlen. unfold scan_events. rewrite while_loop_eq.
    unfold loop_cond; cbn [fst].
    replace (0 <? Z.of_nat (length events) - 2) with false; [reflexivity|].
    symmetry. apply Z.ltb_ge. lia.
  - intros rows' Hs.
    destruct (scan_Ok_emits _ _ _ _ _ _ _ _ _ _ _ Hs) as (es & Hr & _ & Hf).
    exists es. split; [exact Hr|].
    eapply Forall_impl; [|exact Hf]. unfold emitted. intros e He. tauto.
  - intros Hal. split.
    + intros t k Hk. apply scan_extended; assumption.
    + intros t1 t2 k1 k2 Hk1 Hk2.
      rewrite scan_extended; [apply scan_extended; assumption | exact Hk2 |].
      unfold aligned in *. rewrite !length_app. simpl. lia.
Qed.

Lemma Qltb_false (x y : Q) : (y <= x)%Q -> Qltb x y = false.
Proof.
  intros H. unfold Qltb. apply negb_false_iff. apply Qle_bool_iff. exact H.
Qed.

(** C3. After a pattern that does not match, the cursor moves on by one
    event and the scan retries; on [rise, rise, culmination, set] with
    minimum duration 0 and a span that is not negative, exactly one pass is
    yielded, built from the second rise, the culmination and the set. *)
Theorem resynchronises_after_anomaly
    (sat : EarthSatellite) (gs : GroundStation) (geo : GeographicPosition)
    (mask mbps eff : Q) (t0 t1 t2 t3 : Time) (rows : list PassRow) :
  (0 <= pass_seconds t1 t3)%Q ->
  (forall min_dur_s times events i rows0,
     is_triple events i = Ok false ->
     loop_body sat gs geo mask mbps eff min_dur_s times events (i, rows0)
       = Ok (i + 1, rows0)) /\
  scan_events sat gs geo mask mbps eff 0 [t0; t1; t2; t3] [0; 0; 1; 2] rows
    = Ok (rows ++ [pass_row sat gs geo mask mbps eff t1 t2 t3]).
Proof.
  intros Hd. split.
  - intros. apply body_skips. assumption.
  - unfold scan_events.
    rewrite (unroll_loop sat gs geo mask mbps eff 0 [t0; t1; t2; t3] [0; 0; 1; 2] 4
               (0, rows) (Ok (4, rows ++ [pass_row sat gs geo mask mbps eff t1 t2 t3]))).
    + reflexivity.
    + cbv -[Qltb pass_seconds pass_row app].
      rewrite (Qltb_false _ _ Hd). reflexivity.
Qed.

Lemma resynchronises_after_anomaly_witness :
  (0 <= pass_seconds (time_at 300000000) (time_at 900000000))%Q /\
  scan_events sat0 gs0 geo0 0 10 (8 # 10) 0
    [time_at 0; time_at 300000000; time_at 600000000; time_at 900000000]
    [0; 0; 1; 2] []
  = Ok ([] ++ [pass_row sat0 gs0 geo0 0 10 (8 # 10)
                 (time_at 300000000) (time_at 600000000) (time_at 900000000)]).
Proof.
  assert (H : (0 <= pass_seconds (time_at 300000000) (time_at 900000000))%Q)
    by (vm_compute; discriminate).
  split; [exact H|].
  exact (proj2 (resynchronises_after_anomaly sat0 gs0 geo0 0 10 (8 # 10)
                  (time_at 0) (time_at 300000000) (time_at 600000000)
                  (time_at 900000000) [] H)).
Defined.

(** ** The data-volume estimate *)

(** C4. The estimate is [rateMbps * 1e6 / 8 * durationSeconds * efficiency
    / 1e6], which is [rate * duration * efficiency / 8], with no clamping
    (a zero duration gives zero, a negated duration the negated volume); and
    a stream of one pass of 600 s at 10 Mbps, efficiency 0.8 and minimum
    duration 0 yields exactly one pass, with [duration_s] 600.0 and
    [data_mb_est] 600.0. *)
Theorem data_volume_estimate
    (sat : EarthSatellite) (gs : GroundStation) (geo : GeographicPosition)
    (mask : Q) (tr tc ts : Time) :
  utc_datetime ts - utc_datetime tr = 600000000 ->
  (forall mbps seconds eff,
     mb_from_mbps mbps seconds eff
       == mbps * 1000000 / 8 * seconds * eff / 1000000 /\
     mb_from_mbps mbps seconds eff == mbps * seconds * eff / 8 /\
     mb_from_mbps mbps 0 eff == 0 /\
     mb_from_mbps mbps (- seconds) eff == - mb_from_mbps mbps seconds eff)%Q /\
  scan_events sat gs geo mask 10 (8 # 10) 0 [tr; tc; ts] [0; 1; 2] []
    = Ok [pass_row sat gs geo mask 10 (8 # 10) tr tc ts] /\
  (duration_s (pass_row sat gs geo mask 10 (8 # 10) tr tc ts) == 600)%Q /\
  (data_mb_est (pass_row sat gs geo mask 10 (8 # 10) tr tc ts) == 600)%Q.
Proof.
  intros Hspan.
  assert (Hsec : pass_seconds tr ts = 600000000 # 1000000).
  { unfold pass_seconds, total_seconds. rewrite Hspan. reflexivity. }
  split; [|split; [|split]].
  - intros mbps seconds eff. unfold mb_from_mbps. repeat split; field.
  - unfold scan_events.
    rewrite (unroll_loop sat gs geo mask 10 (8 # 10) 0 [tr; tc; ts] [0; 1; 2] 3
               (0, []) (Ok (3, [pass_row sat gs geo mask 10 (8 # 10) tr tc ts]))).
    + reflexivity.
    + cbv -[Qltb pass_seconds pass_row app].
      rewrite Qltb_false; [reflexivity|]. rewrite Hsec. discriminate.
  - simpl. rewrite Hsec. reflexivity.
  - simpl. rewrite Hsec. reflexivity.
Qed.

Lemma data_volume_estimate_witness :
  utc_datetime (time_at 600000000) - utc_datetime (time_at 0) = 600000000 /\
  scan_events sat0 gs0 geo0 0 10 (8 # 10) 0
    [time_at 0; time_at 300000000; time_at 600000000] [0; 1; 2] []
  = Ok [pass_row sat0 gs0 geo0 0 10 (8 # 10)
          (time_at 0) (time_at 300000000) (time_at 600000000)].
Proof.
  split; [reflexivity|].
  exact (proj1 (proj2 (data_volume_estimate sat0 gs0 geo0 0
                         (time_at 0) (time_at 300000000) (time_at 600000000)
                         eq_refl))).
Defined.

(** ** The minimum-duration filter *)

Lemma emitted_long_enough
    (sat : EarthSatellite) (gs : GroundStation) (geo : GeographicPosition)
    (mask mbps eff min_dur_s : Q) (times : list Time) (events : list Z)
    (e : Emission) :
  emitted min_dur_s times events e ->
  long_enough min_dur_s
    (pass_row sat gs geo mask mbps eff (t_rise e) (t_culm e) (t_set e)).
Proof.
  intros He. exists (t_rise e), (t_set e). simpl.
  repeat split; try reflexivity. unfold emitted in He. tauto.
Qed.

Lemma scan_long_enough
    (sat : EarthSatellite) (gs : GroundStation) (geo : GeographicPosition)
    (mask mbps eff min_dur_s : Q) (times : list Time) (events : list Z)
    (rows rows' : list PassRow) :
  Forall (long_enough min_dur_s) rows ->
  scan_events sat gs geo mask mbps eff min_dur_s times events rows = Ok rows' ->
  Forall (long_enough min_dur_s) rows'.
Proof.
  intros Hrows Hs. destruct (scan_Ok_emits _ _ _ _ _ _ _ _ _ _ _ Hs) as (es & -> & _ & Hf).
  apply Forall_app. split; [exact Hrows|].
  rewrite Forall_map. eapply Forall_impl; [|exact Hf].
  intros e He. eapply emitted_long_enough; exact He.
Qed.

Lemma for_ground_stations_long_enough
    (sat : EarthSatellite) (t0 t1 : Z) (mbps eff min_dur_s : Q)
    (stations : list GroundStation) :
  forall rows rows',
    Forall (long_enough min_dur_s) rows ->
    for_ground_stations sat t0 t1 mbps eff min_dur_s stations rows = Ok rows' ->
    Forall (long_enough min_dur_s) rows'.
Proof.
  induction stations as [|gs rest IH]; intros rows rows' Hrows; simpl.
  - intros H; inversion H; subst; exact Hrows.
  - destruct (find_events sat _ t0 t1 _) as [times events].
    destruct (scan_events _ _ _ _ _ _ _ _ _ _) as [rows1|] eqn:Hs; simpl; [|discriminate].
    apply IH. eapply scan_long_enough; eassumption.
Qed.

Lemma for_satellites_long_enough
    (tle_file : string -> result (list EarthSatellite))
    (EarthSatellite_of_tle : string -> string -> string -> result EarthSatellite)
    (t0 t1 : Z) (mbps eff min_dur_s : Q)
    (stations : list GroundStation) (sats : list SatCfg) :
  forall rows rows',
    Forall (long_enough min_dur_s) rows ->
    for_satellites tle_file EarthSatellite_of_tle t0 t1 mbps eff min_dur_s
      stations sats rows = Ok rows' ->
    Forall (long_enough min_dur_s) rows'.
Proof.
  induction sats as [|sat_cfg rest IH]; intros rows rows' Hrows; simpl.
  - intros H; inversion H; subst; exact Hrows.
  - destruct (make_satellite _ _ _) as [sat|]; simpl; [|discriminate].
    destruct (for_ground_stations _ _ _ _ _ _ _ _) as [rows1|] eqn:Hg; simpl; [|discriminate].
    apply IH. eapply for_ground_stations_long_enough; eassumption.
Qed.

Lemma catalog_rows_with_dates (rows : list PassRow) :
  catalog_rows (CatalogFrame (map with_dates rows)) = rows.
Proof.
  simpl. rewrite map_map. simpl. apply map_id.
Qed.

(** The rows of the frame that [compute_passes] returns are the rows the
    loops collected. *)
Lemma compute_passes_rows
    (fromisoformat : string -> result datetime) (local_utcoffset : Z -> result Z)
    (tle_file : string -> result (list EarthSatellite))
    (EarthSatellite_of_tle : string -> string -> string -> result EarthSatellite)
    (cfg : Config) (df : DataFrame) :
  compute_passes fromisoformat local_utcoffset tle_file EarthSatellite_of_tle cfg = Ok df ->
  exists t0 t1,
    for_satellites tle_file EarthSatellite_of_tle t0 t1
      (link_downlink_mbps cfg) (link_efficiency cfg)
      (dict_get (analysis_min_pass_duration_s cfg) 0%Q)
      (ground_stations cfg) (satellites cfg) [] = Ok (catalog_rows df) /\
    df = (if df_empty (PassFrame (catalog_rows df))
          then PassFrame (catalog_rows df)
          else CatalogFrame (map with_dates (catalog_rows df))).
Proof.
  unfold compute_passes.
  destruct (parse_utc _ _ (time_start_utc cfg)) as [d0|]; simpl; [|discriminate].
  destruct (parse_utc _ _ (time_end_utc cfg)) as [d1|]; simpl; [|discriminate].
  destruct (for_satellites _ _ _ _ _ _ _ _ _ _) as [rows|] eqn:Hf; simpl; [|discriminate].
  intros H. exists (wall_us d0), (wall_us d1).
  destruct rows as [|r rows]; inversion H; subst; clear H.
  - simpl. split; [exact Hf | reflexivity].
  - change (with_dates r :: map with_dates rows) with (map with_dates (r :: rows)).
    rewrite catalog_rows_with_dates. split; [exact Hf | reflexivity].
Qed.

(** C2 (as the code has it). The filter compares the unrounded span: every
    row of the catalogue records a rise-to-set span that is at least the
    configured minimum, and its [duration_s], which is that span rounded to
    one decimal, is at least the minimum rounded to one decimal (and above
    the minimum less a twentieth of a second); a matched triple that is
    too short advances the cursor by 3 and adds no row. *)
Theorem catalog_respects_minimum
    (fromisoformat : string -> result datetime) (local_utcoffset : Z -> result Z)
    (tle_file : string -> result (list EarthSatellite))
    (EarthSatellite_of_tle : string -> string -> string -> result EarthSatellite)
    (cfg : Config) (df : DataFrame) :
  compute_passes fromisoformat local_utcoffset tle_file EarthSatellite_of_tle cfg = Ok df ->
  (forall p, In p (catalog_rows df) ->
     long_enough (dict_get (analysis_min_pass_duration_s cfg) 0%Q) p /\
     (round (dict_get (analysis_min_pass_duration_s cfg) 0) 1 <= duration_s p)%Q /\
     (dict_get (analysis_min_pass_duration_s cfg) 0 - (1 # 20) <= duration_s p)%Q) /\
  (forall sat gs geo mask mbps eff min_dur_s times events i rows tr tc ts,
     is_triple events i = Ok true ->
     getitem times i = Ok tr -> getitem times (i + 1) = Ok tc ->
     getitem times (i + 2) = Ok ts ->
     (pass_seconds tr ts < min_dur_s)%Q ->
     loop_body sat gs geo mask mbps eff min_dur_s times events (i, rows)
       = Ok (i + 3, rows)).
Proof.
  intros Hc. split.
  - destruct (compute_passes_rows _ _ _ _ _ _ Hc) as (t0 & t1 & Hf & _).
    apply for_satellites_long_enough in Hf; [|constructor].
    rewrite Forall_forall in Hf. intros p Hin.
    pose proof (Hf p Hin) as Hp. split; [exact Hp|].
    destruct Hp as (tr & ts & _ & _ & Hd & Hmin). rewrite Hd. split.
    + apply round_mono. exact Hmin.
    + destruct (round_1_near (pass_seconds tr ts)) as [Hlo _]. lra.
  - intros. eapply body_filtered; eassumption.
Qed.

(** C2, the claim as written fails: with a minimum of 10.04 s, a pass of
    10.04 s is kept, and its [duration_s] is 10.0. *)
Lemma duration_s_below_minimum :
  exists r,
    compute_passes fromisoformat0 local_utcoffset0 (tle_of [sat_short])
      satellite_of_tle0 (cfg_with (Some (1004 # 100))) = Ok (CatalogFrame [r]) /\
    (0 <= 1004 # 100)%Q /\
    (duration_s (pass r) == 10)%Q /\
    (duration_s (pass r) < 1004 # 100)%Q.
Proof.
  eexists. split; [vm_compute; reflexivity|].
  split; [discriminate|]. split; reflexivity.
Qed.

Lemma catalog_respects_minimum_witness :
  compute_passes fromisoformat0 local_utcoffset0 (tle_of [sat0])
    satellite_of_tle0 (cfg_with (Some 60%Q))
  = Ok (CatalogFrame
          [with_dates (pass_row sat0 gs0 geo0 0 10 (8 # 10)
                         (time_at 0) (time_at 300000000) (time_at 600000000))]) /\
  (round 60 1 <=
   duration_s (pass_row sat0 gs0 geo0 0 10 (8 # 10)
                 (time_at 0) (time_at 300000000) (time_at 600000000)))%Q.
Proof.
  assert (H : compute_passes fromisoformat0 local_utcoffset0 (tle_of [sat0])
                satellite_of_tle0 (cfg_with (Some 60%Q))
              = Ok (CatalogFrame
                      [with_dates (pass_row sat0 gs0 geo0 0 10 (8 # 10)
                         (time_at 0) (time_at 300000000) (time_at 600000000))]))
    by (vm_compute; reflexivity).
  split; [exact H|].
  exact (proj1 (proj2 (proj1 (catalog_respects_minimum _ _ _ _ _ _ H) _
                               (or_introl eq_refl)))).
Defined.

(** ** Negative durations *)

(** C1, the claim as written fails: a triple whose set precedes its rise
    does not make the scan raise; with the default minimum it is dropped
    without a trace. *)
Lemma negative_duration_not_raised :
  (pass_seconds (time_at 100000000) (time_at 0) < 0)%Q /\
  is_triple [0; 1; 2] 0 = Ok true /\
  scan_events sat0 gs0 geo0 0 10 (8 # 10) 0 times_backwards [0; 1; 2] [] = Ok [] /\
  (forall e,
     scan_events sat0 gs0 geo0 0 10 (8 # 10) 0 times_backwards [0; 1; 2] []
       <> Raise e).
Proof.
  split; [reflexivity|]. split; [reflexivity|].
  assert (H : scan_events sat0 gs0 geo0 0 10 (8 # 10) 0 times_backwards [0; 1; 2] []
              = Ok []) by (vm_compute; reflexivity).
  split; [exact H|]. intros e. rewrite H. discriminate.
Qed.

Lemma scan_never_raises_witness :
  aligned times_backwards [0; 1; 2] /\
  exists rows',
    scan_events sat0 gs0 geo0 0 10 (8 # 10) 0 times_backwards [0; 1; 2] []
      = Ok rows'.
Proof.
  assert (H : aligned times_backwards [0; 1; 2]) by (unfold aligned; simpl; lia).
  split; [exact H|].
  exact (proj1 (scan_never_raises sat0 gs0 geo0 0 10 (8 # 10) 0
                  times_backwards [0; 1; 2] [] H)).
Defined.

Lemma trailing_fragment_dropped_witness :
  (length [0; 1] <= 2)%nat /\
  scan_events sat0 gs0 geo0 0 10 (8 # 10) 0
    [time_at 0; time_at 300000000] [0; 1] [] = Ok [].
Proof.
  assert (H : (length [0; 1] <= 2)%nat) by (simpl; lia).
  split; [exact H|].
  exact (proj1 (proj2 (trailing_fragment_dropped sat0 gs0 geo0 0 10 (8 # 10) 0
                         [time_at 0; time_at 300000000] [0; 1] [])) H).
Defined.

Lemma scan_loop_terminates_witness :
  unroll sat0 gs0 geo0 0 10 (8 # 10) 0 times_two_passes [0; 1; 2; 0; 1; 2]
    (length [0; 1; 2; 0; 1; 2]) (0, [])
  = Some (while_loop sat0 gs0 geo0 0 10 (8 # 10) 0 times_two_passes
            [0; 1; 2; 0; 1; 2] (0, [])).
Proof.
  exact (proj2 (proj2 (scan_loop_terminates sat0 gs0 geo0 0 10 (8 # 10) 0
                         times_two_passes [0; 1; 2; 0; 1; 2] []))).
Defined.

Lemma passes_disjoint_ordered_witness :
  scan_events sat0 gs0 geo0 0 10 (8 # 10) 0 times_two_passes
    [0; 1; 2; 0; 1; 2] []
  = Ok [pass_row sat0 gs0 geo0 0 10 (8 # 10)
          (time_at 0) (time_at 300000000) (time_at 600000000);
        pass_row sat0 gs0 geo0 0 10 (8 # 10)
          (time_at 5400000000) (time_at 5700000000) (time_at 6000000000)] /\
  exists es,
    [pass_row sat0 gs0 geo0 0 10 (8 # 10)
       (time_at 0) (time_at 300000000) (time_at 600000000);
     pass_row sat0 gs0 geo0 0 10 (8 # 10)
       (time_at 5400000000) (time_at 5700000000) (time_at 6000000000)]
    = [] ++ map (fun e => pass_row sat0 gs0 geo0 0 10 (8 # 10)
                            (t_rise e) (t_culm e) (t_set e)) es /\
    Forall (emitted 0 times_two_passes [0; 1; 2; 0; 1; 2]) es /\
    StronglySorted (fun e1 e2 => pos e1 + 3 <= pos e2) es /\
    (chronological times_two_passes ->
     StronglySorted
       (fun e1 e2 =>
          utc_datetime (t_rise e1) <= utc_datetime (t_rise e2) /\
          utc_datetime (t_set e1) <= utc_datetime (t_rise e2)) es /\
     ((forall a b, In a times_two_passes -> In b times_two_passes ->
         utc_datetime a <= utc_datetime b -> utc_iso a <= utc_iso b) ->
      StronglySorted
        (fun r1 r2 => aos_utc r1 <= aos_utc r2 /\ los_utc r1 <= aos_utc r2)
        (map (fun e => pass_row sat0 gs0 geo0 0 10 (8 # 10)
                         (t_rise e) (t_culm e) (t_set e)) es))).
Proof.
  assert (H : scan_events sat0 gs0 geo0 0 10 (8 # 10) 0 times_two_passes
                [0; 1; 2; 0; 1; 2] []
              = Ok [pass_row sat0 gs0 geo0 0 10 (8 # 10)
                      (time_at 0) (time_at 300000000) (time_at 600000000);
                    pass_row sat0 gs0 geo0 0 10 (8 # 10)
                      (time_at 5400000000) (time_at 5700000000)
                      (time_at 6000000000)])
    by (vm_compute; reflexivity).
  split; [exact H|].
  exact (passes_disjoint_ordered sat0 gs0 geo0 0 10 (8 # 10) 0 times_two_passes
           [0; 1; 2; 0; 1; 2] [] _ H).
Defined.

(** ** Timestamps *)

Lemma length_append (s t : string) :
  String.length (s ++ t) = (String.length s + String.length t)%nat.
Proof. induction s as [|c s IH]; simpl; [reflexivity | rewrite IH; reflexivity]. Qed.

Lemma substring_append_skip (s t : string) (k m : nat) :
  substring (String.length s + k) m (s ++ t) = substring k m t.
Proof. induction s as [|c s IH]; simpl; [reflexivity | exact IH]. Qed.

Lemma substring_append_prefix (s t : string) :
  substring 0 (String.length s) (s ++ t) = s.
Proof.
  induction s as [|c s IH]; simpl.
  - destruct t; reflexivity.
  - rewrite IH. reflexivity.
Qed.

Lemma endswith_Z (s : string) : endswith (s ++ "Z") "Z" = true.
Proof.
  unfold endswith. rewrite length_append.
  change (String.length "Z") with 1%nat.
  replace (1 <=? String.length s + 1)%nat with true
    by (symmetry; apply Nat.leb_le; lia).
  replace (String.length s + 1 - 1)%nat with (String.length s + 0)%nat by lia.
  rewrite substring_append_skip. reflexivity.
Qed.

Lemma drop_last_Z (s : string) : drop_last (s ++ "Z") = s.
Proof.
  unfold drop_last. rewrite length_append.
  change (String.length "Z") with 1%nat.
  replace (String.length s + 1 - 1)%nat with (String.length s) by lia.
  apply substring_append_prefix.
Qed.

Lemma endswith_offset (s : string) : endswith (s ++ "+00:00") "Z" = false.
Proof.
  unfold endswith. rewrite length_append.
  change (String.length "Z") with 1%nat.
  change (String.length "+00:00") with 6%nat.
  replace (String.length s + 6 - 1)%nat with (String.length s + 5)%nat by lia.
  rewrite substring_append_skip. apply andb_false_r.
Qed.

Lemma astimezone_utc (local_utcoffset : Z -> result Z) (dt : datetime) (off : Z) :
  (tzinfo dt = Some off \/ (tzinfo dt = None /\ local_utcoffset (wall_us dt) = Ok off)) ->
  astimezone local_utcoffset dt timezone_utc
  = if in_datetime_range (wall_us dt - off)
    then Ok {| wall_us := wall_us dt - off; tzinfo := Some timezone_utc |}
    else Raise OverflowError.
Proof.
  intros H. unfold astimezone, timezone_utc.
  assert (E : match tzinfo dt with
              | Some o => Ok o
              | None => local_utcoffset (wall_us dt)
              end = Ok off).
  { destruct H as [H | [H1 H2]]; [rewrite H | rewrite H1, H2]; reflexivity. }
  rewrite E. simpl. rewrite Z.add_0_r.
  destruct (in_datetime_range (wall_us dt - off)); reflexivity.
Qed.

(** C6 (as the code has it). [parse_utc] hands the text to the ISO-8601
    parser, a trailing [Z] read as the offset [+00:00]; when the parser
    rejects the text, [parse_utc] fails with the parser's error. When the
    parser accepts it, the result is the same instant carrying the UTC
    zone (the offset of the text taken off; for a text without zone, the
    local offset, when it can be found) if that instant lies in the range
    of [datetime], and [OverflowError] is raised if it does not. A value
    that is returned always carries the UTC zone. *)
Theorem parse_utc_normalises
    (fromisoformat : string -> result datetime) (local_utcoffset : Z -> result Z)
    (ts : string) :
  parse_utc fromisoformat local_utcoffset (ts ++ "Z")
    = parse_utc fromisoformat local_utcoffset (ts ++ "+00:00") /\
  (forall e, fromisoformat (ts ++ "+00:00")%string = Raise e ->
     parse_utc fromisoformat local_utcoffset (ts ++ "Z") = Raise e) /\
  (endswith ts "Z" = false ->
     (forall e, fromisoformat ts = Raise e ->
        parse_utc fromisoformat local_utcoffset ts = Raise e) /\
     (forall dt off, fromisoformat ts = Ok dt ->
        (tzinfo dt = Some off \/
         (tzinfo dt = None /\ local_utcoffset (wall_us dt) = Ok off)) ->
        (in_datetime_range (wall_us dt - off) = true ->
         parse_utc fromisoformat local_utcoffset ts
           = Ok {| wall_us := wall_us dt - off; tzinfo := Some timezone_utc |}) /\
        (in_datetime_range (wall_us dt - off) = false ->
         parse_utc fromisoformat local_utcoffset ts = Raise OverflowError)) /\
     (forall dt e, fromisoformat ts = Ok dt -> tzinfo dt = None ->
        local_utcoffset (wall_us dt) = Raise e ->
        parse_utc fromisoformat local_utcoffset ts = Raise e)) /\
  (forall d, parse_utc fromisoformat local_utcoffset ts = Ok d ->
     tzinfo d = Some timezone_utc /\
     in_datetime_range (wall_us d) = true /\
     exists dt,
       fromisoformat (if endswith ts "Z" then drop_last ts ++ "+00:00" else ts)%string
         = Ok dt /\
       forall off, tzinfo dt = Some off -> wall_us d = wall_us dt - off).
Proof.
  split; [|split; [|split]].
  - unfold parse_utc. rewrite endswith_Z, endswith_offset, drop_last_Z. reflexivity.
  - intros e He. unfold parse_utc. rewrite endswith_Z, drop_last_Z, He. reflexivity.
  - intros Hz. unfold parse_utc. rewrite Hz. split; [|split].
    + intros e He. rewrite He. reflexivity.
    + intros dt off Hd Hoff. rewrite Hd. simpl.
      rewrite (astimezone_utc local_utcoffset dt off Hoff).
      split; intros Hr; rewrite Hr; reflexivity.
    + intros dt e Hd Hn He. rewrite Hd. simpl. unfold astimezone.
      rewrite Hn, He. reflexivity.
  - intros d. unfold parse_utc.
    destruct (fromisoformat _) as [dt|] eqn:Hf; simpl; [|discriminate].
    unfold astimezone.
    destruct (match tzinfo dt with
              | Some o => Ok o
              | None => local_utcoffset (wall_us dt)
              end) as [off|] eqn:Hoff; simpl; [|discriminate].
    unfold timezone_utc. rewrite Z.add_0_r.
    destruct (in_datetime_range (wall_us dt - off)) eqn:Hr; simpl; [|discriminate].
    intros H; inversion H; subst; clear H. simpl.
    split; [reflexivity|]. split; [exact Hr|].
    exists dt. split; [reflexivity|].
    intros off' Ho. rewrite Ho in Hoff. inversion Hoff. reflexivity.
Qed.

(** C6, the claim as written fails: a text that the parser accepts, the
    first instant of year 1 written five hours east of UTC, is not
    accepted by [parse_utc], which raises [OverflowError]. *)
Lemma accepted_text_overflows :
  fromisoformat1 "0001-01-01T00:00:00+05:00"
    = Ok {| wall_us := 0; tzinfo := Some 18000000000 |} /\
  endswith "0001-01-01T00:00:00+05:00" "Z" = false /\
  parse_utc fromisoformat1 local_utcoffset0 "0001-01-01T00:00:00+05:00"
    = Raise OverflowError /\
  (forall d, parse_utc fromisoformat1 local_utcoffset0 "0001-01-01T00:00:00+05:00"
             <> Ok d).
Proof.
  split; [reflexivity|]. split; [reflexivity|].
  assert (H : parse_utc fromisoformat1 local_utcoffset0 "0001-01-01T00:00:00+05:00"
              = Raise OverflowError) by (vm_compute; reflexivity).
  split; [exact H|]. intros d. rewrite H. discriminate.
Qed.

Lemma parse_utc_normalises_witness :
  parse_utc fromisoformat1 local_utcoffset0 "2025-01-01T00:00:00Z"
    = Ok {| wall_us := 739251 * 86400000000; tzinfo := Some 0 |} /\
  tzinfo {| wall_us := 739251 * 86400000000; tzinfo := Some 0 |} = Some timezone_utc.
Proof.
  assert (H : parse_utc fromisoformat1 local_utcoffset0 "2025-01-01T00:00:00Z"
              = Ok {| wall_us := 739251 * 86400000000; tzinfo := Some 0 |})
    by (vm_compute; reflexivity).
  split; [exact H|].
  exact (proj1 (proj2 (proj2 (proj2 (parse_utc_normalises fromisoformat1
           local_utcoffset0 "2025-01-01T00:00:00Z"))) _ H)).
Defined.

(** ** Satellite resolution *)

Lemma first_named_spec (target : string) (sats : list EarthSatellite) :
  match first_named target sats with
  | Ok (Some s) =>
      exists pre post n,
        sats = pre ++ s :: post /\ Forall (other_name target) pre /\
        name s = Some n /\ strip n = target
  | Ok None => Forall (other_name target) sats
  | Raise e =>
      e = AttributeError /\
      exists pre s post,
        sats = pre ++ s :: post /\ Forall (other_name target) pre /\
        name s = None
  end.
Proof.
  induction sats as [|x rest IH]; simpl; [constructor|].
  unfold name_strip. destruct (name x) as [n|] eqn:Hn; simpl.
  - destruct (String.eqb (strip n) target) eqn:Hx.
    + apply String.eqb_eq in Hx. exists [], rest, n. simpl. repeat split; auto.
    + apply String.eqb_neq in Hx.
      assert (Hox : other_name target x) by (exists n; auto).
      destruct (first_named target rest) as [[s|]|e].
      * destruct IH as (pre & post & m & -> & Hpre & Hs & Hm).
        exists (x :: pre), post, m. simpl. repeat split; auto.
      * constructor; assumption.
      * destruct IH as (-> & pre & s & post & -> & Hpre & Hs).
        split; [reflexivity|]. exists (x :: pre), s, post. simpl.
        repeat split; auto.
  - split; [reflexivity|]. exists [], x, rest. simpl. repeat split; auto.
Qed.




(** ** The rows the loops build *)

Section BuiltRows.

Variable tle_file : string -> result (list EarthSatellite).
Variable EarthSatellite_of_tle : string -> string -> string -> result EarthSatellite.

Local Abbreviation resolve := (make_satellite tle_file EarthSatellite_of_tle).
Local Abbreviation per_satellite := (for_satellites tle_file EarthSatellite_of_tle).
Local Abbreviation built_row := (built tle_file EarthSatellite_of_tle).

Lemma for_ground_stations_built (sats : list SatCfg) (all : list GroundStation)
    (sat_cfg : SatCfg) (sat : EarthSatellite) (t0 t1 : Z) (mbps eff min_dur_s : Q)
    (stations : list GroundStation) :
  In sat_cfg sats -> resolve sat_cfg = Ok sat ->
  forall rows rows',
    incl stations all ->
    Forall (built_row sats all t0 t1 mbps eff min_dur_s) rows ->
    for_ground_stations sat t0 t1 mbps eff min_dur_s stations rows = Ok rows' ->
    Forall (built_row sats all t0 t1 mbps eff min_dur_s) rows'.
Proof.
  intros Hin Hres.
  induction stations as [|gs rest IH]; intros rows rows' Hincl Hrows; cbn [for_ground_stations].
  - intros H; inversion H; subst; exact Hrows.
  - destruct (find_events sat (latlon (gs_lat_deg gs) (gs_lon_deg gs) (gs_alt_m gs))
                t0 t1 (dict_get (gs_mask_deg gs) 0%Q)) as [times events] eqn:Hfe.
    destruct (scan_events _ _ _ _ _ _ _ _ _ rows) as [r1|e] eqn:Hs; simpl; [|discriminate].
    apply IH; [intros x Hx; apply Hincl; right; exact Hx|].
    destruct (scan_Ok_emits _ _ _ _ _ _ _ _ _ _ _ Hs) as (es & -> & _ & Hf).
    apply Forall_app. split; [exact Hrows|].
    rewrite Forall_map. eapply Forall_impl; [|exact Hf].
    intros em Hem. exists sat_cfg, sat, gs, em. rewrite Hfe. cbn [fst snd].
    split; [exact Hin|]. split; [exact Hres|].
    split; [apply Hincl; left; reflexivity|].
    split; [exact Hem | reflexivity].
Qed.

Lemma for_satellites_built (all_sats : list SatCfg) (all : list GroundStation)
    (t0 t1 : Z) (mbps eff min_dur_s : Q) (sats : list SatCfg) :
  forall rows rows',
    incl sats all_sats ->
    Forall (built_row all_sats all t0 t1 mbps eff min_dur_s) rows ->
    per_satellite t0 t1 mbps eff min_dur_s all sats rows = Ok rows' ->
    Forall (built_row all_sats all t0 t1 mbps eff min_dur_s) rows'.
Proof.
  induction sats as [|c rest IH]; intros rows rows' Hincl Hrows; cbn [for_satellites].
  - intros H; inversion H; subst; exact Hrows.
  - destruct (resolve c) as [sat|e] eqn:Hres; simpl; [|discriminate].
    destruct (for_ground_stations _ _ _ _ _ _ all rows) as [r1|e] eqn:Hg; simpl; [|discriminate].
    apply IH; [intros x Hx; apply Hincl; right; exact Hx|].
    eapply (for_ground_stations_built all_sats all c sat); try eassumption.
    + apply Hincl. left. reflexivity.
    + apply incl_refl.
Qed.

(** The rows of a returned frame were built over the parsed window. *)
Lemma compute_passes_built
    (fromisoformat : string -> result datetime) (local_utcoffset : Z -> result Z)
    (cfg : Config) (df : DataFrame) :
  compute_passes fromisoformat local_utcoffset tle_file EarthSatellite_of_tle cfg = Ok df ->
  exists d0 d1,
    parse_utc fromisoformat local_utcoffset (time_start_utc cfg) = Ok d0 /\
    parse_utc fromisoformat local_utcoffset (time_end_utc cfg) = Ok d1 /\
    Forall (built_row (satellites cfg) (ground_stations cfg) (wall_us d0) (wall_us d1)
              (link_downlink_mbps cfg) (link_efficiency cfg)
              (dict_get (analysis_min_pass_duration_s cfg) 0%Q))
      (catalog_rows df).
Proof.
  unfold compute_passes.
  destruct (parse_utc _ _ (time_start_utc cfg)) as [d0|]; simpl; [|discriminate].
  destruct (parse_utc _ _ (time_end_utc cfg)) as [d1|]; simpl; [|discriminate].
  destruct (for_satellites _ _ _ _ _ _ _ _ _ _) as [rows|] eqn:Hf; simpl; [|discriminate].
  intros H. exists d0, d1. split; [reflexivity|]. split; [reflexivity|].
  apply (for_satellites_built (satellites cfg) (ground_stations cfg)) in Hf;
    [|apply incl_refl|constructor].
  destruct rows as [|r rows]; inversion H; subst; clear H.
  - constructor.
  - change (with_dates r :: map with_dates rows) with (map with_dates (r :: rows)).
    rewrite catalog_rows_with_dates. exact Hf.
Qed.

End BuiltRows.

(** ** Aggregation *)

Lemma sum_app {A : Type} (w : A -> Z) (l : list A) (v : A) :
  fold_right Z.add 0 (map w (l ++ [v])) = fold_right Z.add 0 (map w l) + w v.
Proof.
  induction l as [|x l IH]; cbn [app map fold_right]; [lia|]. rewrite IH. lia.
Qed.

Lemma sum_ones {A : Type} (l : list A) :
  fold_right Z.add 0 (map (fun _ => 1) l) = Z.of_nat (length l).
Proof.
  induction l as [|x l IH]; cbn [map fold_right length]; [reflexivity|].
  rewrite IH. lia.
Qed.

Lemma filter_all {A : Type} (l : list A) : filter (fun _ => true) l = l.
Proof. induction l as [|x l IH]; simpl; [reflexivity | rewrite IH; reflexivity]. Qed.

Section GroupByProperties.

Variable K V : Type.
Variable compare : K -> K -> comparison.

Hypothesis compare_eq : forall a b, compare a b = Eq <-> a = b.
Hypothesis compare_antisym : forall a b, compare a b = CompOpp (compare b a).
Hypothesis compare_trans :
  forall a b c, compare a b = Lt -> compare b c = Lt -> compare a c = Lt.

Local Abbreviation key_lt := (fun x y : K * list V => compare (fst x) (fst y) = Lt).
Local Abbreviation add := (group_add K V compare).
Local Abbreviation grouped := (groupby K V compare).
Local Abbreviation filed := (members K V compare).
Local Abbreviation under := (values_of K V compare).

Lemma group_add_keys (k : K) (v : V) (groups : list (K * list V)) (k' : K) :
  In k' (map fst (add k v groups)) <-> k' = k \/ In k' (map fst groups).
Proof.
  induction groups as [|[k1 v1] rest IH]; simpl.
  - intuition.
  - destruct (compare k k1) eqn:Hc; simpl.
    + apply compare_eq in Hc. subst. intuition.
    + intuition.
    + rewrite IH. intuition.
Qed.

Lemma group_add_sorted (k : K) (v : V) (groups : list (K * list V)) :
  StronglySorted key_lt groups -> StronglySorted key_lt (add k v groups).
Proof.
  induction groups as [|[k1 v1] rest IH]; simpl; intros Hs.
  - constructor; constructor.
  - inversion Hs as [|? ? Hrest Hall]; subst.
    destruct (compare k k1) eqn:Hc.
    + constructor; [exact Hrest | exact Hall].
    + constructor; [exact Hs|]. constructor; [exact Hc|].
      eapply Forall_impl; [|exact Hall]. simpl. intros x Hx.
      eapply compare_trans; eassumption.
    + constructor; [apply IH; exact Hrest|].
      rewrite Forall_forall in *. intros x Hin. simpl.
      assert (Hk : In (fst x) (map fst (add k v rest))) by (apply in_map; exact Hin).
      apply group_add_keys in Hk. destruct Hk as [-> | Hk].
      * rewrite compare_antisym, Hc. reflexivity.
      * apply in_map_iff in Hk. destruct Hk as (y & Hy & Hiny).
        rewrite <- Hy. apply (Hall y Hiny).
Qed.

Lemma sorted_keys_NoDup (groups : list (K * list V)) :
  StronglySorted key_lt groups -> NoDup (map fst groups).
Proof.
  induction 1 as [|x rest Hrest IH Hall]; simpl; constructor; [|exact IH].
  intros Hin. apply in_map_iff in Hin. destruct Hin as (y & Hy & Hiny).
  rewrite Forall_forall in Hall. specialize (Hall y Hiny). simpl in Hall.
  rewrite Hy in Hall.
  assert (compare (fst x) (fst x) = Eq) by (apply compare_eq; reflexivity).
  congruence.
Qed.

(** Nothing is filed under a key below all the keys of the table. *)
Lemma members_above (k : K) (groups : list (K * list V)) :
  Forall (fun g => compare k (fst g) = Lt) groups -> filed k groups = [].
Proof.
  induction 1 as [|g rest Hg _ IH]; cbn [members]; [reflexivity|].
  rewrite Hg. exact IH.
Qed.

(** In a table of ascending keys, a group holds what is filed under its
    key. *)
Lemma members_in (k : K) (vs : list V) (groups : list (K * list V)) :
  StronglySorted key_lt groups -> In (k, vs) groups -> filed k groups = vs.
Proof.
  induction 1 as [|g rest Hrest IH Hall]; intros Hin; [destruct Hin|].
  cbn [members]. destruct Hin as [-> | Hin].
  - cbn [fst snd]. rewrite (proj2 (compare_eq k k) eq_refl).
    rewrite members_above, app_nil_r; [reflexivity | exact Hall].
  - rewrite Forall_forall in Hall. pose proof (Hall _ Hin) as Hlt. cbn [fst] in Hlt.
    rewrite compare_antisym, Hlt. cbn [CompOpp]. apply IH. exact Hin.
Qed.

(** Adding an item files its value last under its key and leaves the other
    keys alone. *)
Lemma group_add_members (k : K) (v : V) (groups : list (K * list V)) (k' : K) :
  StronglySorted key_lt groups ->
  filed k' (add k v groups)
  = filed k' groups ++ match compare k' k with Eq => [v] | _ => [] end.
Proof.
  induction groups as [|[k1 vs] rest IH]; intros Hs; cbn [group_add members fst snd].
  - destruct (compare k' k); reflexivity.
  - inversion Hs as [|? ? Hrest Hall]; subst. cbn [fst] in Hall.
    destruct (compare k k1) eqn:Hc; cbn [members fst snd].
    + apply compare_eq in Hc. subst k1.
      destruct (compare k' k) eqn:Hk'; try (rewrite app_nil_r; reflexivity).
      apply compare_eq in Hk'. subst k'.
      rewrite (members_above k rest Hall), !app_nil_r. reflexivity.
    + destruct (compare k' k) eqn:Hk'; try (rewrite app_nil_r; reflexivity).
      apply compare_eq in Hk'. subst k'. rewrite Hc.
      rewrite members_above; [reflexivity|].
      eapply Forall_impl; [|exact Hall]. intros g Hg.
      eapply compare_trans; eassumption.
    + rewrite (IH Hrest).
      destruct (compare k' k1); [rewrite app_assoc|..]; reflexivity.
Qed.

(** Adding an item adds its weight to every selection that contains its
    key. *)
Lemma group_add_selected (w : V -> Z) (sel : K -> bool) (k : K) (v : V)
    (groups : list (K * list V)) :
  selected_weight w sel (add k v groups)
  = selected_weight w sel groups + (if sel k then w v else 0).
Proof.
  unfold selected_weight.
  induction groups as [|[k1 vs] rest IH]; cbn [group_add fold_right fst snd map].
  - destruct (sel k); lia.
  - destruct (compare k k1) eqn:Hc; cbn [fold_right fst snd map].
    + apply compare_eq in Hc. subst k1.
      destruct (sel k); [|lia].
      rewrite sum_app. lia.
    + destruct (sel k), (sel k1); lia.
    + rewrite IH. destruct (sel k), (sel k1); lia.
Qed.

Lemma group_add_length (k : K) (v : V) (groups : list (K * list V)) :
  (length (add k v groups) <= S (length groups))%nat.
Proof.
  induction groups as [|[k1 v1] rest IH]; simpl; [lia|].
  destruct (compare k k1); simpl; lia.
Qed.

Lemma fold_group_add (items : list (K * V)) :
  forall groups,
    StronglySorted key_lt groups ->
    let out := fold_left (fun g kv => add (fst kv) (snd kv) g) items groups in
    StronglySorted key_lt out /\
    (forall k, In k (map fst out) <-> In k (map fst items) \/ In k (map fst groups)) /\
    (forall k, filed k out = filed k groups ++ under k items) /\
    (forall w sel,
       selected_weight w sel out
       = selected_weight w sel groups
         + fold_right Z.add 0
             (map (fun kv => w (snd kv)) (filter (fun kv => sel (fst kv)) items))) /\
    (length out <= length items + length groups)%nat.
Proof.
  induction items as [|[k v] items IH]; intros groups Hs; cbn [fold_left fst snd].
  - split; [exact Hs|]. split; [simpl; intuition|].
    split; [intros k; unfold values_of; simpl; rewrite app_nil_r; reflexivity|].
    split; [intros w sel; simpl; lia | simpl; lia].
  - destruct (IH (add k v groups) (group_add_sorted k v groups Hs))
      as (H1 & H2 & H3 & H4 & H5).
    split; [exact H1|]. split; [|split; [|split]].
    + intros k'. rewrite H2, group_add_keys. simpl. intuition.
    + intros k'. rewrite H3, (group_add_members k v groups k' Hs), <- app_assoc.
      f_equal. unfold values_of. cbn [filter fst].
      destruct (compare k' k); reflexivity.
    + intros w sel. rewrite H4, group_add_selected. cbn [filter fst].
      destruct (sel k); cbn [map fold_right snd]; lia.
    + pose proof (group_add_length k v groups). cbn [length]. lia.
Qed.

(** The grouped table: ascending keys, which are the keys of the items;
    under each key the values of the items with that key, in the order of
    the items; and no more groups than items. *)
Lemma groupby_spec (items : list (K * V)) :
  StronglySorted key_lt (grouped items) /\
  NoDup (map fst (grouped items)) /\
  (forall k, In k (map fst (grouped items)) <-> In k (map fst items)) /\
  (forall k vs, In (k, vs) (grouped items) -> vs = under k items) /\
  (forall w sel,
     selected_weight w sel (grouped items)
     = fold_right Z.add 0
         (map (fun kv => w (snd kv)) (filter (fun kv => sel (fst kv)) items))) /\
  (length (grouped items) <= length items)%nat.
Proof.
  unfold groupby.
  destruct (fold_group_add items [] ltac:(constructor)) as (H1 & H2 & H3 & H4 & H5).
  split; [exact H1|]. split; [apply sorted_keys_NoDup; exact H1|].
  split; [|split; [|split]].
  - intros k. rewrite H2. simpl. intuition.
  - intros k vs Hin. rewrite <- (members_in k vs _ H1 Hin), H3. reflexivity.
  - intros w sel. rewrite H4. simpl. reflexivity.
  - simpl in H5. lia.
Qed.

(** Two strictly ascending lists with the same elements are equal. *)
Lemma ascending_unique (l1 : list K) :
  forall l2,
    StronglySorted (fun a b => compare a b = Lt) l1 ->
    StronglySorted (fun a b => compare a b = Lt) l2 ->
    (forall x, In x l1 <-> In x l2) -> l1 = l2.
Proof.
  assert (Hirr : forall a, compare a a <> Lt).
  { intros a H. rewrite (proj2 (compare_eq a a) eq_refl) in H. discriminate. }
  induction l1 as [|x1 t1 IH]; intros [|x2 t2] S1 S2 Hiff.
  - reflexivity.
  - exfalso. apply (proj2 (Hiff x2)). left. reflexivity.
  - exfalso. apply (proj1 (Hiff x1)). left. reflexivity.
  - inversion S1 as [|? ? S1' A1]; inversion S2 as [|? ? S2' A2]; subst.
    rewrite Forall_forall in A1, A2.
    assert (Hx : x1 = x2).
    { destruct (proj1 (Hiff x1) (or_introl eq_refl)) as [E | I1]; [auto|].
      destruct (proj2 (Hiff x2) (or_introl eq_refl)) as [E | I2]; [auto|].
      exfalso. apply (Hirr x1).
      eapply compare_trans; [apply A1; exact I2 | apply A2; exact I1]. }
    subst x2. f_equal. apply IH; auto.
    intros x. split; intros Hin.
    + destruct (proj1 (Hiff x) (or_intror Hin)) as [E | I]; [|exact I].
      subst x. exfalso. apply (Hirr x1). apply A1. exact Hin.
    + destruct (proj2 (Hiff x) (or_intror Hin)) as [E | I]; [|exact I].
      subst x. exfalso. apply (Hirr x1). apply A2. exact Hin.
Qed.

(** The keys of the grouped table depend on the keys of the items only. *)
Lemma grouped_keys_unique (items items' : list (K * V)) :
  (forall k, In k (map fst items) <-> In k (map fst items')) ->
  map fst (grouped items) = map fst (grouped items').
Proof.
  intros Hiff.
  destruct (groupby_spec items) as (S & _ & M & _).
  destruct (groupby_spec items') as (S' & _ & M' & _).
  apply ascending_unique.
  - apply StronglySorted_map with (R := fun a b => compare a b = Lt). exact S.
  - apply StronglySorted_map with (R := fun a b => compare a b = Lt). exact S'.
  - intros k. rewrite M, M'. apply Hiff.
Qed.

End GroupByProperties.

(** *** The orders on the grouping keys *)

Lemma ascii_compare_refl (a : ascii) : Ascii.compare a a = Eq.
Proof. unfold Ascii.compare. apply N.compare_refl. Qed.

Lemma ascii_compare_trans (a b c : ascii) :
  Ascii.compare a b = Lt -> Ascii.compare b c = Lt -> Ascii.compare a c = Lt.
Proof.
  unfold Ascii.compare. rewrite !N.compare_lt_iff. apply N.lt_trans.
Qed.

Lemma string_compare_eq (a b : string) : String.compare a b = Eq <-> a = b.
Proof.
  split; [apply String.compare_eq_iff|].
  intros <-. induction a as [|c a IH]; simpl; [reflexivity|].
  rewrite ascii_compare_refl. exact IH.
Qed.

Lemma string_compare_trans (a : string) :
  forall b c, String.compare a b = Lt -> String.compare b c = Lt ->
    String.compare a c = Lt.
Proof.
  induction a as [|x a IH]; intros [|y b] [|z c]; simpl; try discriminate; auto.
  destruct (Ascii.compare x y) eqn:Hxy; try discriminate;
    destruct (Ascii.compare y z) eqn:Hyz; try discriminate; intros H1 H2.
  - apply Ascii.compare_eq_iff in Hxy, Hyz. subst.
    rewrite ascii_compare_refl. eapply IH; eassumption.
  - apply Ascii.compare_eq_iff in Hxy. subst. rewrite Hyz. reflexivity.
  - apply Ascii.compare_eq_iff in Hyz. subst. rewrite Hxy. reflexivity.
  - rewrite (ascii_compare_trans _ _ _ Hxy Hyz). reflexivity.
Qed.

Lemma Z_compare_trans (a b c : Z) :
  (a ?= b) = Lt -> (b ?= c) = Lt -> (a ?= c) = Lt.
Proof. rewrite !Z.compare_lt_iff. lia. Qed.

Lemma daily_key_compare_eq (a b : DailyKey) : daily_key_compare a b = Eq <-> a = b.
Proof.
  destruct a as [[d1 s1] g1], b as [[d2 s2] g2]. unfold daily_key_compare. split.
  - destruct (d1 ?= d2) eqn:Hd; try discriminate.
    destruct (String.compare s1 s2) eqn:Hs; try discriminate.
    intros Hg. apply Z.compare_eq_iff in Hd.
    apply string_compare_eq in Hs, Hg. subst. reflexivity.
  - intros H; inversion H; subst. rewrite Z.compare_refl.
    rewrite (proj2 (string_compare_eq s2 s2) eq_refl).
    apply string_compare_eq. reflexivity.
Qed.

Lemma daily_key_compare_antisym (a b : DailyKey) :
  daily_key_compare a b = CompOpp (daily_key_compare b a).
Proof.
  destruct a as [[d1 s1] g1], b as [[d2 s2] g2]. unfold daily_key_compare.
  rewrite (Z.compare_antisym d2 d1), (String.compare_antisym s1 s2),
    (String.compare_antisym g1 g2).
  destruct (d2 ?= d1); simpl; try reflexivity.
  destruct (String.compare s2 s1); simpl; reflexivity.
Qed.

Lemma daily_key_compare_trans (a b c : DailyKey) :
  daily_key_compare a b = Lt -> daily_key_compare b c = Lt ->
  daily_key_compare a c = Lt.
Proof.
  destruct a as [[d1 s1] g1], b as [[d2 s2] g2], c as [[d3 s3] g3].
  unfold daily_key_compare.
  destruct (d1 ?= d2) eqn:H12; try discriminate;
    destruct (d2 ?= d3) eqn:H23; try discriminate;
    try (apply Z.compare_eq_iff in H12; subst);
    try (apply Z.compare_eq_iff in H23; subst);
    try rewrite H12; try rewrite H23; try rewrite Z.compare_refl;
    try rewrite (Z_compare_trans _ _ _ H12 H23); auto.
  destruct (String.compare s1 s2) eqn:S12; try discriminate;
    destruct (String.compare s2 s3) eqn:S23; try discriminate;
    try (apply string_compare_eq in S12; subst);
    try (apply string_compare_eq in S23; subst);
    try rewrite S12; try rewrite S23;
    try rewrite (proj2 (string_compare_eq s3 s3) eq_refl);
    try rewrite (string_compare_trans _ _ _ S12 S23); auto.
  apply string_compare_trans.
Qed.

Lemma daily_key_eqb_eq (a b : DailyKey) : daily_key_eqb a b = true <-> a = b.
Proof.
  destruct a as [[d1 s1] g1], b as [[d2 s2] g2]. unfold daily_key_eqb.
  rewrite !andb_true_iff, Z.eqb_eq, !String.eqb_eq.
  split; [intros [[-> ->] ->]; reflexivity | intros H; inversion H; auto].
Qed.

(** *** The two summaries *)

Lemma daily_key_compare_eqb (a b : DailyKey) :
  match daily_key_compare a b with Eq => true | _ => false end = daily_key_eqb a b.
Proof.
  destruct (daily_key_eqb a b) eqn:E.
  - apply daily_key_eqb_eq in E. apply daily_key_compare_eq in E. rewrite E. reflexivity.
  - destruct (daily_key_compare a b) eqn:C; try reflexivity.
    apply daily_key_compare_eq in C. apply daily_key_eqb_eq in C. congruence.
Qed.

Lemma keyed_keys (rows : list CatalogRow) (k : DailyKey) :
  In k (map fst (keyed rows)) <-> exists r, In r rows /\ daily_key r = Some k.
Proof.
  unfold keyed. induction rows as [|r rows IH]; cbn [flat_map map].
  - split; [intros [] | intros (r & [] & _)].
  - rewrite map_app, in_app_iff, IH. split.
    + intros [H | (r' & Hr & Hk)].
      * destruct (daily_key r) as [k'|] eqn:E; simpl in H; [|destruct H].
        destruct H as [<- | []]. exists r. split; [left; reflexivity | exact E].
      * exists r'. split; [right; exact Hr | exact Hk].
    + intros (r' & [<- | Hr] & Hk).
      * left. rewrite Hk. left. reflexivity.
      * right. exists r'. auto.
Qed.

Lemma keyed_rows_of_key (k : DailyKey) (rows : list CatalogRow) :
  values_of DailyKey CatalogRow daily_key_compare k (keyed rows) = rows_of_key k rows.
Proof.
  unfold values_of, keyed, rows_of_key.
  induction rows as [|r rows IH]; cbn [flat_map filter map]; [reflexivity|].
  destruct (daily_key r) as [k'|]; cbn [app filter fst].
  - rewrite daily_key_compare_eqb.
    destruct (daily_key_eqb k k'); cbn [map snd]; rewrite IH; reflexivity.
  - exact IH.
Qed.

Lemma keyed_selected (sel : DailyKey -> bool) (rows : list CatalogRow) :
  length (filter (fun kv => sel (fst kv)) (keyed rows))
  = length (filter (fun r => match daily_key r with
                             | Some k => sel k
                             | None => false
                             end) rows).
Proof.
  unfold keyed.
  induction rows as [|r rows IH]; cbn [flat_map filter]; [reflexivity|].
  destruct (daily_key r) as [k'|]; cbn [app filter fst].
  - destruct (sel k'); cbn [length]; rewrite IH; reflexivity.
  - exact IH.
Qed.

Lemma keyed_length (rows : list CatalogRow) :
  (length (keyed rows) <= length rows)%nat.
Proof.
  unfold keyed. induction rows as [|r rows IH]; cbn [flat_map length]; [lia|].
  rewrite length_app. destruct (daily_key r); cbn [length]; lia.
Qed.

Lemma rekeyed_date (d : Z) (summary : list (DailyKey * Totals)) :
  values_of Z Totals Z.compare d
    (map (fun g : DailyKey * Totals => (fst (fst (fst g)), snd g)) summary)
  = map snd (groups_of_date d summary).
Proof.
  unfold values_of, groups_of_date.
  induction summary as [|[[[d' s'] g'] t] summary IH];
    cbn [map filter fst snd]; [reflexivity|].
  rewrite (Z.eqb_compare d d').
  destruct (d ?= d'); cbn [map snd]; rewrite IH; reflexivity.
Qed.

Lemma rekeyed_keys (summary : list (DailyKey * Totals)) :
  map fst (map (fun g : DailyKey * Totals => (fst (fst (fst g)), snd g)) summary)
  = map (fun k : DailyKey => fst (fst k)) (map fst summary).
Proof. rewrite !map_map. reflexivity. Qed.

Lemma date_of_key (r : CatalogRow) (k : DailyKey) :
  daily_key r = Some k -> fst (fst k) = date_utc r.
Proof.
  unfold daily_key. destruct (satellite (pass r)); [|discriminate].
  intros H; inversion H; reflexivity.
Qed.

Lemma rows_of_date_selected (d : Z) (rows : list CatalogRow) :
  filter (fun r => match daily_key r with
                   | Some k => d =? fst (fst k)
                   | None => false
                   end) rows
  = rows_of_date d rows.
Proof.
  unfold rows_of_date. apply filter_ext. intros r.
  destruct (daily_key r) as [k|] eqn:E; [|reflexivity].
  rewrite (date_of_key r k E). reflexivity.
Qed.

Section Summaries.

Variable column_sum : list Q -> Q.

Local Abbreviation day_table := (daily column_sum).
Local Abbreviation date_table := (daily_total column_sum).

Lemma group_counts {K : Type} (sel : K -> bool) (groups : list (K * list CatalogRow)) :
  fold_right Z.add 0
    (map (fun g => passes (snd g))
       (filter (fun g => sel (fst g))
          (map (fun g => (fst g, daily_agg column_sum (snd g))) groups)))
  = selected_weight (fun _ => 1) sel groups.
Proof.
  unfold selected_weight.
  induction groups as [|g groups IH]; cbn [map filter fold_right fst snd];
    [reflexivity|].
  destruct (sel (fst g)); cbn [map fold_right snd daily_agg passes];
    rewrite IH; [rewrite sum_ones|]; reflexivity.
Qed.

Lemma rollup_counts {K : Type} (groups : list (K * list Totals)) :
  fold_right Z.add 0
    (map (fun g => passes (snd g))
       (map (fun g => (fst g, rollup_agg column_sum (snd g))) groups))
  = selected_weight passes (fun _ => true) groups.
Proof.
  unfold selected_weight.
  induction groups as [|g groups IH]; cbn [map fold_right fst snd];
    [reflexivity|].
  cbn [rollup_agg passes]. rewrite IH. reflexivity.
Qed.

(** The daily summary: ascending distinct keys, which are the keys of the
    rows that have one; each group aggregates the rows with its key, in
    catalogue order. *)
Lemma daily_spec (rows : list CatalogRow) :
  StronglySorted (fun g h => daily_key_compare (fst g) (fst h) = Lt) (day_table rows) /\
  NoDup (map fst (day_table rows)) /\
  (forall k, In k (map fst (day_table rows))
             <-> exists r, In r rows /\ daily_key r = Some k) /\
  (forall k t, In (k, t) (day_table rows) ->
     t = daily_agg column_sum (rows_of_key k rows)) /\
  (forall sel,
     fold_right Z.add 0
       (map (fun g => passes (snd g)) (filter (fun g => sel (fst g)) (day_table rows)))
     = Z.of_nat (length (filter (fun r => match daily_key r with
                                          | Some k => sel k
                                          | None => false
                                          end) rows))) /\
  (length (day_table rows) <= length rows)%nat.
Proof.
  destruct (groupby_spec DailyKey CatalogRow daily_key_compare daily_key_compare_eq
              daily_key_compare_antisym daily_key_compare_trans (keyed rows))
    as (G1 & G2 & G3 & G4 & G5 & G6).
  assert (Hkeys : map fst (day_table rows)
                  = map fst (groupby DailyKey CatalogRow daily_key_compare (keyed rows))).
  { unfold daily. rewrite map_map. reflexivity. }
  split; [|split; [|split; [|split; [|split]]]].
  - unfold daily.
    apply StronglySorted_map
      with (R := fun g h : DailyKey * Totals => daily_key_compare (fst g) (fst h) = Lt).
    exact G1.
  - rewrite Hkeys. exact G2.
  - intros k. rewrite Hkeys, G3. apply keyed_keys.
  - intros k t Hin. unfold daily in Hin. apply in_map_iff in Hin.
    destruct Hin as ([k' vs] & Heq & Hin). cbn [fst snd] in Heq.
    inversion Heq; subst. rewrite (G4 k vs Hin), keyed_rows_of_key. reflexivity.
  - intros sel. unfold daily.
    rewrite group_counts, G5, sum_ones, keyed_selected. reflexivity.
  - unfold daily. rewrite length_map. pose proof (keyed_length rows). lia.
Qed.

(** The rollup: ascending distinct dates, which are the dates of the keys
    of the summary; each group aggregates the summary rows of its date, in
    summary order. *)
Lemma daily_total_spec (summary : list (DailyKey * Totals)) :
  StronglySorted (fun g h => (fst g ?= fst h) = Lt) (date_table summary) /\
  NoDup (map fst (date_table summary)) /\
  (forall d, In d (map fst (date_table summary))
             <-> exists k, In k (map fst summary) /\ fst (fst k) = d) /\
  (forall d t, In (d, t) (date_table summary) ->
     t = rollup_agg column_sum (map snd (groups_of_date d summary))) /\
  fold_right Z.add 0 (map (fun g => passes (snd g)) (date_table summary))
    = fold_right Z.add 0 (map (fun g => passes (snd g)) summary) /\
  (length (date_table summary) <= length summary)%nat.
Proof.
  destruct (groupby_spec Z Totals Z.compare Z.compare_eq_iff
              (fun a b => Z.compare_antisym b a) Z_compare_trans
              (map (fun g : DailyKey * Totals => (fst (fst (fst g)), snd g)) summary))
    as (G1 & G2 & G3 & G4 & G5 & G6).
  assert (Hkeys : map fst (date_table summary)
                  = map fst (groupby Z Totals Z.compare
                       (map (fun g : DailyKey * Totals => (fst (fst (fst g)), snd g))
                          summary))).
  { unfold daily_total. rewrite map_map. reflexivity. }
  split; [|split; [|split; [|split; [|split]]]].
  - unfold daily_total.
    apply StronglySorted_map
      with (R := fun g h : Z * Totals => (fst g ?= fst h) = Lt).
    exact G1.
  - rewrite Hkeys. exact G2.
  - intros d. rewrite Hkeys, G3, rekeyed_keys, in_map_iff.
    split; intros (k & A & B); exists k; auto.
  - intros d t Hin. unfold daily_total in Hin. apply in_map_iff in Hin.
    destruct Hin as ([d' vs] & Heq & Hin). cbn [fst snd] in Heq.
    inversion Heq; subst. rewrite (G4 d vs Hin), rekeyed_date. reflexivity.
  - unfold daily_total.
    rewrite rollup_counts, G5, filter_all, map_map. reflexivity.
  - unfold daily_total. rewrite length_map. rewrite length_map in G6. exact G6.
Qed.

End Summaries.




(** * Further properties of the event scan *)

Lemma getitem_app_offset {A : Type} (pre l : list A) (j : Z) :
  0 <= j < Z.of_nat (length l) ->
  getitem (pre ++ l) (Z.of_nat (length pre) + j) = getitem l j.
Proof.
  intros Hj.
  destruct (getitem_nth l j Hj) as [a [Ha Hn]]. rewrite Ha.
  destruct (getitem_nth (pre ++ l) (Z.of_nat (length pre) + j)) as [b [Hb Hm]].
  { rewrite length_app. lia. }
  rewrite Hb. rewrite nth_error_app2 in Hm by lia.
  replace (Z.to_nat (Z.of_nat (length pre) + j) - length pre)%nat
    with (Z.to_nat j) in Hm by lia.
  congruence.
Qed.

Lemma getitem_raises {A : Type} (l : list A) (i : Z) (e : exn) :
  getitem l i = Raise e -> e = IndexError.
Proof.
  unfold getitem.
  destruct ((0 <=? (if i <? 0 then i + Z.of_nat (length l) else i))
            && ((if i <? 0 then i + Z.of_nat (length l) else i) <? Z.of_nat (length l)));
    [destruct (nth_error _ _)|]; intros H; inversion H; reflexivity.
Qed.

Section ScanFrame.

Variable sat : EarthSatellite.
Variable gs : GroundStation.
Variable geo : GeographicPosition.
Variable mask : Q.
Variable cfg_downlink_mbps : Q.
Variable cfg_efficiency : Q.
Variable min_dur_s : Q.
Variable times : list Time.
Variable events : list Z.

Local Abbreviation body := (loop_body sat gs geo mask cfg_downlink_mbps cfg_efficiency min_dur_s times events).
Local Abbreviation loop := (while_loop sat gs geo mask cfg_downlink_mbps cfg_efficiency min_dur_s times events).
Local Abbreviation scan := (scan_events sat gs geo mask cfg_downlink_mbps cfg_efficiency min_dur_s times events).
Local Abbreviation len := (Z.of_nat (length events)).

Lemma body_frame (pre rows : list PassRow) (i : Z) :
  body (i, pre ++ rows) = (s <- body (i, rows) ;; Ok (fst s, pre ++ snd s)).
Proof.
  unfold loop_body.
  destruct (is_triple events i) as [[|]|]; simpl; try reflexivity.
  destruct (getitem times i); simpl; try reflexivity.
  destruct (getitem times (i + 1)); simpl; try reflexivity.
  destruct (getitem times (i + 2)); simpl; try reflexivity.
  destruct (Qltb _ _); simpl; [reflexivity|].
  rewrite app_assoc. reflexivity.
Qed.

Lemma loop_frame (n : nat) (pre : list PassRow) :
  forall i rows, (Z.to_nat (len - i) <= n)%nat ->
    loop (i, pre ++ rows) = (s <- loop (i, rows) ;; Ok (fst s, pre ++ snd s)).
Proof.
  induction n as [|n IH]; intros i rows Hm;
    rewrite (while_loop_eq _ _ _ _ _ _ _ _ _ (i, pre ++ rows)),
            (while_loop_eq _ _ _ _ _ _ _ _ _ (i, rows));
    unfold loop_cond; cbn [fst snd];
    destruct (i <? len - 2) eqn:Hc; try reflexivity;
    apply Z.ltb_lt in Hc; try lia.
  rewrite body_frame.
  destruct (body (i, rows)) as [[i1 rows1]|e] eqn:Hb; simpl; [|reflexivity].
  apply IH.
  destruct (body_advances _ _ _ _ _ _ _ _ _ _ _ Hb) as [H|H]; simpl in H; lia.
Qed.

Lemma scan_frame (rows : list PassRow) :
  scan rows = (new <- scan [] ;; Ok (rows ++ new)).
Proof.
  unfold scan_events.
  rewrite <- (app_nil_r rows) at 1.
  rewrite (loop_frame (Z.to_nat len) rows 0 []) by lia.
  destruct (loop (0, [])) as [[i1 rows1]|e]; reflexivity.
Qed.

(** X1. The scan of a pair only appends, and what it appends does not
    depend on the rows collected before: scanning onto [rows] is scanning
    onto an empty list and putting [rows] in front, errors included; so
    the rows collected before are kept, in place, whenever it returns. *)
Theorem scan_appends_independently (rows : list PassRow) :
  scan rows = (new <- scan [] ;; Ok (rows ++ new)) /\
  (forall rows', scan rows = Ok rows' -> firstn (length rows) rows' = rows).
Proof.
  split; [apply scan_frame|].
  intros rows'. rewrite scan_frame.
  destruct (scan []) as [new|e]; simpl; [|discriminate].
  intros H; inversion H; subst.
  rewrite firstn_app, Nat.sub_diag, firstn_all. simpl. apply app_nil_r.
Qed.

Lemma spaced_count (es : list Emission) :
  forall from, from <= len -> spaced from es ->
    Forall (fun e => pos e + 2 < len) es ->
    from + 3 * Z.of_nat (length es) <= len.
Proof.
  induction es as [|e es IH]; intros from Hfrom Hs Hf; simpl length.
  - lia.
  - simpl in Hs. destruct Hs as [H1 H2]. inversion Hf as [|? ? He Hes]; subst.
    specialize (IH (pos e + 3)). rewrite Nat2Z.inj_succ. 
    assert (pos e + 3 + 3 * Z.of_nat (length es) <= len) by (apply IH; auto; lia).
    lia.
Qed.

(** X2. A scan that returns adds at most one row per three events. *)
Theorem scan_row_count_bound (rows rows' : list PassRow) :
  scan rows = Ok rows' ->
  (length rows <= length rows')%nat /\
  3 * (Z.of_nat (length rows') - Z.of_nat (length rows)) <= len.
Proof.
  intros Hs. destruct (scan_Ok_emits _ _ _ _ _ _ _ _ _ _ _ Hs) as (es & -> & Hsp & Hf).
  rewrite length_app, length_map. split; [lia|].
  assert (0 + 3 * Z.of_nat (length es) <= len).
  { apply spaced_count; [lia | exact Hsp |].
    eapply Forall_impl; [|exact Hf]. unfold emitted. intros e He. tauto. }
  lia.
Qed.

(** X3. The cursor walks over any run of positions at which the pattern
    does not match, one event at a time and without a row: if no triple
    starts at any position from [a] up to [b], the loop entered at [a]
    continues exactly like the loop entered at [b]. *)
Theorem loop_skips_unmatched_run (a b : Z) (rows : list PassRow) :
  a <= b -> b <= len - 2 ->
  (forall i, a <= i < b -> is_triple events i = Ok false) ->
  loop (a, rows) = loop (b, rows).
Proof.
  remember (Z.to_nat (b - a)) as n eqn:Hn. revert a Hn.
  induction n as [|n IH]; intros a Hn Hab Hb Hno.
  - replace b with a by lia. reflexivity.
  - rewrite (while_loop_eq _ _ _ _ _ _ _ _ _ (a, rows)).
    unfold loop_cond; cbn [fst].
    replace (a <? len - 2) with true by (symmetry; apply Z.ltb_lt; lia).
    rewrite (body_skips _ _ _ _ _ _ _ _ _ a rows) by (apply Hno; lia).
    apply IH; try lia. intros i Hi. apply Hno. lia.
Qed.

(** X4. The scan can fail in one way only: with [IndexError], and only on
    arrays that are not aligned (fewer times than event codes). *)
Theorem scan_raises_only_IndexError (rows : list PassRow) (e : exn) :
  scan rows = Raise e -> e = IndexError /\ ~ aligned times events.
Proof.
  intros Hs. split.
  - unfold scan_events in Hs.
    destruct (loop (0, rows)) as [st|e'] eqn:Hl; simpl in Hs; [discriminate|].
    inversion Hs; subst e'; clear Hs.
    assert (Hgen : forall n st, (Z.to_nat (len - fst st) <= n)%nat ->
              loop st = Raise e -> e = IndexError).
    { induction n as [|n IH]; intros st Hm;
        rewrite (while_loop_eq _ _ _ _ _ _ _ _ _ st);
        destruct (loop_cond events st) eqn:Hc; try discriminate;
        unfold loop_cond in Hc; apply Z.ltb_lt in Hc; try lia.
      destruct (body st) as [st1|e1] eqn:Hb.
      - apply IH. destruct (body_advances _ _ _ _ _ _ _ _ _ _ _ Hb); lia.
      - intros H; inversion H; subst e1; clear H.
        destruct st as [i rs]. unfold loop_body, is_triple in Hb.
        repeat match type of Hb with
               | context [getitem ?l ?j] =>
                   let E := fresh "E" in
                   destruct (getitem l j) eqn:E; simpl in Hb;
                   [|apply getitem_raises in E; inversion Hb; subst; reflexivity]
               | context [if ?c then _ else _] => destruct c; simpl in Hb
               end; discriminate. }
    apply (Hgen (Z.to_nat len) (0, rows)); [simpl; lia | exact Hl].
  - intros Hal. destruct (scan_no_raise sat gs geo mask cfg_downlink_mbps
                            cfg_efficiency min_dur_s times events rows Hal) as [r Hr].
    rewrite Hr in Hs. discriminate.
Qed.

End ScanFrame.

Lemma getitem_head1 {A : Type} (x y : A) (l : list A) :
  getitem (x :: y :: l) 1 = Ok y.
Proof.
  destruct (getitem_nth (x :: y :: l) 1) as [a [Ha Hn]]; [simpl length; lia|].
  simpl in Hn. congruence.
Qed.

Lemma getitem_head2 {A : Type} (x y z : A) (l : list A) :
  getitem (x :: y :: z :: l) 2 = Ok z.
Proof.
  destruct (getitem_nth (x :: y :: z :: l) 2) as [a [Ha Hn]]; [simpl length; lia|].
  simpl in Hn. congruence.
Qed.

Section CleanStream.

Variable sat : EarthSatellite.
Variable gs : GroundStation.
Variable geo : GeographicPosition.
Variable mask : Q.
Variable cfg_downlink_mbps : Q.
Variable cfg_efficiency : Q.
Variable min_dur_s : Q.

Local Abbreviation row3 :=
  (fun tr : Time * Time * Time =>
     pass_row sat gs geo mask cfg_downlink_mbps cfg_efficiency
       (fst (fst tr)) (snd (fst tr)) (snd tr)).

Lemma triple_at_offset {A : Type} (pre : list A) (x y z : A) (l : list A) :
  getitem (pre ++ x :: y :: z :: l) (Z.of_nat (length pre)) = Ok x /\
  getitem (pre ++ x :: y :: z :: l) (Z.of_nat (length pre) + 1) = Ok y /\
  getitem (pre ++ x :: y :: z :: l) (Z.of_nat (length pre) + 2) = Ok z.
Proof.
  repeat split.
  - rewrite <- (Z.add_0_r (Z.of_nat (length pre))).
    rewrite getitem_app_offset by (simpl length; lia). apply getitem_head0.
  - rewrite getitem_app_offset by (simpl length; lia). apply getitem_head1.
  - rewrite getitem_app_offset by (simpl length; lia). apply getitem_head2.
Qed.

Lemma loop_clean (triples : list (Time * Time * Time)) :
  forall pre_t pre_e rows, length pre_t = length pre_e ->
    while_loop sat gs geo mask cfg_downlink_mbps cfg_efficiency min_dur_s
      (pre_t ++ triple_times triples) (pre_e ++ triple_codes triples)
      (Z.of_nat (length pre_e), rows)
    = Ok (Z.of_nat (length pre_e) + 3 * Z.of_nat (length triples),
          rows ++ map row3 (kept min_dur_s triples)).
Proof.
  induction triples as [|[[a b] c] rest IH]; intros pre_t pre_e rows Hlen;
    rewrite while_loop_eq; unfold loop_cond; cbn [fst snd].
  - simpl. rewrite !app_nil_r.
    replace (Z.of_nat (length pre_e) <? Z.of_nat (length pre_e) - 2) with false
      by (symmetry; apply Z.ltb_ge; lia).
    f_equal. f_equal. lia.
  - cbn [triple_times triple_codes flat_map app fst snd].
    fold (triple_times rest). fold (triple_codes rest).
    replace (Z.of_nat (length pre_e)
             <? Z.of_nat (length (pre_e ++ 0 :: 1 :: 2 :: triple_codes rest)) - 2)
      with true
      by (symmetry; apply Z.ltb_lt; rewrite length_app; simpl length; lia).
    destruct (triple_at_offset pre_e 0 1 2 (triple_codes rest)) as (E0 & E1 & E2).
    destruct (triple_at_offset pre_t a b c (triple_times rest)) as (T0 & T1 & T2).
    rewrite Hlen in T0, T1, T2.
    unfold loop_body, is_triple.
    rewrite E0; simpl. rewrite E1; simpl. rewrite E2; simpl.
    rewrite T0; simpl. rewrite T1; simpl. rewrite T2; simpl.
    assert (Hstep : forall rows1,
      while_loop sat gs geo mask cfg_downlink_mbps cfg_efficiency min_dur_s
        (pre_t ++ a :: b :: c :: triple_times rest)
        (pre_e ++ 0 :: 1 :: 2 :: triple_codes rest)
        (Z.of_nat (length pre_e) + 3, rows1)
      = Ok (Z.of_nat (length pre_e) + 3 * Z.of_nat (length ((a, b, c) :: rest)),
            rows1 ++ map row3 (kept min_dur_s rest))).
    { intros rows1.
      change (a :: b :: c :: triple_times rest) with ([a; b; c] ++ triple_times rest).
      change (0 :: 1 :: 2 :: triple_codes rest) with ([0; 1; 2] ++ triple_codes rest).
      rewrite !app_assoc.
      replace (Z.of_nat (length pre_e) + 3)
        with (Z.of_nat (length (pre_e ++ [0; 1; 2])))
        by (rewrite length_app; simpl length; lia).
      rewrite IH by (rewrite !length_app; simpl length; lia).
      f_equal. f_equal. rewrite length_app. simpl length. lia. }
    unfold kept. cbn [filter fst snd]. fold (kept min_dur_s rest).
    destruct (Qltb (pass_seconds a c) min_dur_s); cbn [negb].
    + apply Hstep.
    + rewrite Hstep. cbn [map]. rewrite <- app_assoc. reflexivity.
Qed.

(** X5. On a stream made of whole passes only, no pass is lost: the scan
    yields, in order, one row for every triple whose duration is not below
    the minimum, and nothing else. *)
Theorem clean_stream_complete (triples : list (Time * Time * Time))
    (rows : list PassRow) :
  scan_events sat gs geo mask cfg_downlink_mbps cfg_efficiency min_dur_s
    (triple_times triples) (triple_codes triples) rows
  = Ok (rows ++ map row3 (kept min_dur_s triples)).
Proof.
  unfold scan_events.
  pose proof (loop_clean triples [] [] rows eq_refl) as H.
  cbn [app length Z.of_nat] in H. rewrite H. reflexivity.
Qed.

End CleanStream.


(** * Further properties of the catalogue builder *)

Section BuilderProperties.

Variable fromisoformat : string -> result datetime.
Variable local_utcoffset : Z -> result Z.
Variable tle_file : string -> result (list EarthSatellite).
Variable EarthSatellite_of_tle : string -> string -> string -> result EarthSatellite.

Local Abbreviation resolve := (make_satellite tle_file EarthSatellite_of_tle).
Local Abbreviation per_satellite := (for_satellites tle_file EarthSatellite_of_tle).
Local Abbreviation run_passes :=
  (compute_passes fromisoformat local_utcoffset tle_file EarthSatellite_of_tle).
Local Abbreviation parse := (parse_utc fromisoformat local_utcoffset).

Lemma for_ground_stations_frame (sat : EarthSatellite) (t0 t1 : Z)
    (mbps eff min_dur_s : Q) (stations : list GroundStation) :
  forall rows,
    for_ground_stations sat t0 t1 mbps eff min_dur_s stations rows
    = (new <- for_ground_stations sat t0 t1 mbps eff min_dur_s stations [] ;;
       Ok (rows ++ new)).
Proof.
  induction stations as [|gs rest IH]; intros rows; cbn [for_ground_stations].
  - simpl. rewrite app_nil_r. reflexivity.
  - destruct (find_events sat _ t0 t1 _) as [times events].
    rewrite (scan_frame _ _ _ _ _ _ _ _ _ rows).
    destruct (scan_events _ _ _ _ _ _ _ _ _ []) as [r1|e]; simpl; [|reflexivity].
    rewrite (IH (rows ++ r1)), (IH r1).
    destruct (for_ground_stations _ _ _ _ _ _ rest []) as [r2|e]; simpl; [|reflexivity].
    rewrite app_assoc. reflexivity.
Qed.

Lemma for_ground_stations_app (sat : EarthSatellite) (t0 t1 : Z)
    (mbps eff min_dur_s : Q) (s1 s2 : list GroundStation) :
  forall rows,
    for_ground_stations sat t0 t1 mbps eff min_dur_s (s1 ++ s2) rows
    = (mid <- for_ground_stations sat t0 t1 mbps eff min_dur_s s1 rows ;;
       for_ground_stations sat t0 t1 mbps eff min_dur_s s2 mid).
Proof.
  induction s1 as [|gs rest IH]; intros rows; cbn [for_ground_stations app].
  - reflexivity.
  - destruct (find_events sat _ t0 t1 _) as [times events].
    destruct (scan_events _ _ _ _ _ _ _ _ _ rows) as [r1|e]; simpl; [|reflexivity].
    apply IH.
Qed.

Lemma for_satellites_frame (t0 t1 : Z) (mbps eff min_dur_s : Q)
    (stations : list GroundStation) (sats : list SatCfg) :
  forall rows,
    per_satellite t0 t1 mbps eff min_dur_s stations sats rows
    = (new <- per_satellite t0 t1 mbps eff min_dur_s stations sats [] ;;
       Ok (rows ++ new)).
Proof.
  induction sats as [|c rest IH]; intros rows; cbn [for_satellites].
  - simpl. rewrite app_nil_r. reflexivity.
  - destruct (resolve c) as [sat|e]; simpl; [|reflexivity].
    rewrite (for_ground_stations_frame sat t0 t1 mbps eff min_dur_s stations rows).
    destruct (for_ground_stations _ _ _ _ _ _ stations []) as [r1|e]; simpl; [|reflexivity].
    rewrite (IH (rows ++ r1)), (IH r1).
    destruct (per_satellite _ _ _ _ _ _ rest []) as [r2|e]; simpl; [|reflexivity].
    rewrite app_assoc. reflexivity.
Qed.

Lemma for_satellites_app (t0 t1 : Z) (mbps eff min_dur_s : Q)
    (stations : list GroundStation) (c1 c2 : list SatCfg) :
  forall rows,
    per_satellite t0 t1 mbps eff min_dur_s stations (c1 ++ c2) rows
    = (mid <- per_satellite t0 t1 mbps eff min_dur_s stations c1 rows ;;
       per_satellite t0 t1 mbps eff min_dur_s stations c2 mid).
Proof.
  induction c1 as [|c rest IH]; intros rows; cbn [for_satellites app].
  - reflexivity.
  - destruct (resolve c) as [sat|e]; simpl; [|reflexivity].
    destruct (for_ground_stations _ _ _ _ _ _ stations rows) as [r1|e]; simpl; [|reflexivity].
    apply IH.
Qed.

(** X6. The catalogue is the concatenation of independent parts, in
    configuration order: the rows for a list of satellites are the rows
    already collected, then those of the first part of the list, then
    those of the rest, each computed from an empty catalogue; likewise for
    the stations of one satellite. A failure in an earlier part comes
    first. *)
Theorem catalog_is_concatenation (t0 t1 : Z) (mbps eff min_dur_s : Q)
    (stations s1 s2 : list GroundStation) (c1 c2 : list SatCfg)
    (sat : EarthSatellite) (rows : list PassRow) :
  per_satellite t0 t1 mbps eff min_dur_s stations (c1 ++ c2) rows
    = (a <- per_satellite t0 t1 mbps eff min_dur_s stations c1 [] ;;
       b <- per_satellite t0 t1 mbps eff min_dur_s stations c2 [] ;;
       Ok (rows ++ a ++ b)) /\
  for_ground_stations sat t0 t1 mbps eff min_dur_s (s1 ++ s2) rows
    = (a <- for_ground_stations sat t0 t1 mbps eff min_dur_s s1 [] ;;
       b <- for_ground_stations sat t0 t1 mbps eff min_dur_s s2 [] ;;
       Ok (rows ++ a ++ b)).
Proof.
  split.
  - rewrite for_satellites_app, (for_satellites_frame _ _ _ _ _ _ c1 rows).
    destruct (per_satellite _ _ _ _ _ _ c1 []) as [a|e]; simpl; [|reflexivity].
    rewrite (for_satellites_frame _ _ _ _ _ _ c2 (rows ++ a)).
    destruct (per_satellite _ _ _ _ _ _ c2 []) as [b|e]; simpl; [|reflexivity].
    rewrite app_assoc. reflexivity.
  - rewrite for_ground_stations_app, (for_ground_stations_frame _ _ _ _ _ _ s1 rows).
    destruct (for_ground_stations _ _ _ _ _ _ s1 []) as [a|e]; simpl; [|reflexivity].
    rewrite (for_ground_stations_frame _ _ _ _ _ _ s2 (rows ++ a)).
    destruct (for_ground_stations _ _ _ _ _ _ s2 []) as [b|e]; simpl; [|reflexivity].
    rewrite app_assoc. reflexivity.
Qed.

(** X7. Every row of the catalogue comes from one triple of the event
    stream of a configured pair: there are a satellite resolved from a
    configured entry, a configured ground station and a
    rise/culmination/set triple, found in the stream that [find_events]
    returns for that pair over the parsed window and whose span is not
    below the minimum, such that the row carries that satellite's name,
    that station's name and mask (0 when none is configured), the
    configured link parameters, and the printed rise and set times of
    that triple. *)
Theorem catalog_rows_consistent (cfg : Config) (df : DataFrame) (p : PassRow) :
  run_passes cfg = Ok df -> In p (catalog_rows df) ->
  exists d0 d1 sat_cfg sat gs e,
    parse (time_start_utc cfg) = Ok d0 /\ parse (time_end_utc cfg) = Ok d1 /\
    In sat_cfg (satellites cfg) /\ resolve sat_cfg = Ok sat /\
    In gs (ground_stations cfg) /\
    emitted (dict_get (analysis_min_pass_duration_s cfg) 0%Q)
      (fst (find_events sat (latlon (gs_lat_deg gs) (gs_lon_deg gs) (gs_alt_m gs))
              (wall_us d0) (wall_us d1) (dict_get (gs_mask_deg gs) 0%Q)))
      (snd (find_events sat (latlon (gs_lat_deg gs) (gs_lon_deg gs) (gs_alt_m gs))
              (wall_us d0) (wall_us d1) (dict_get (gs_mask_deg gs) 0%Q))) e /\
    satellite p = name sat /\ station p = gs_name gs /\
    mask_deg p = dict_get (gs_mask_deg gs) 0%Q /\
    downlink_mbps p = link_downlink_mbps cfg /\
    efficiency p = link_efficiency cfg /\
    aos_utc p = utc_iso (t_rise e) /\ los_utc p = utc_iso (t_set e).
Proof.
  intros Hc Hin.
  destruct (compute_passes_built _ _ _ _ _ _ Hc) as (d0 & d1 & H0 & H1 & Hb).
  rewrite Forall_forall in Hb.
  destruct (Hb p Hin) as (sat_cfg & sat & gs & e & B1 & B2 & B3 & B4 & ->).
  exists d0, d1, sat_cfg, sat, gs, e.
  split; [exact H0|]. split; [exact H1|]. split; [exact B1|].
  split; [exact B2|]. split; [exact B3|]. split; [exact B4|].
  cbn [pass_row satellite station mask_deg downlink_mbps efficiency aos_utc los_utc].
  repeat split.
Qed.

Lemma round_zero (n : nat) : (round 0 n == 0)%Q.
Proof.
  unfold round.
  assert (H : round_half_even (0 * inject_Z (10 ^ Z.of_nat n)) = 0).
  { apply Z.le_antisymm.
    - change 0 with (round_half_even 0) at 2. apply round_half_even_mono. lra.
    - change 0 with (round_half_even 0) at 1. apply round_half_even_mono. lra. }
  rewrite H. unfold Qdiv. change (inject_Z 0) with 0%Q. lra.
Qed.

Lemma round_nonneg (x : Q) (n : nat) : (0 <= x)%Q -> (0 <= round x n)%Q.
Proof.
  intros Hx. rewrite <- (round_zero n). apply round_mono. exact Hx.
Qed.

Lemma mb_from_mbps_nonneg (mbps seconds eff : Q) :
  (0 <= mbps)%Q -> (0 <= seconds)%Q -> (0 <= eff)%Q ->
  (0 <= mb_from_mbps mbps seconds eff)%Q.
Proof.
  intros Hm Hs He.
  assert (E : (mb_from_mbps mbps seconds eff == mbps * seconds * eff * (1 # 8))%Q)
    by (unfold mb_from_mbps; field).
  rewrite E.
  repeat apply Qmult_le_0_compat; auto. discriminate.
Qed.

(** X8. With a minimum duration, a downlink rate and an efficiency that
    are not negative, no row of the catalogue has a negative [duration_s]
    or a negative [data_mb_est]. *)
Theorem catalog_values_nonnegative (cfg : Config) (df : DataFrame) (p : PassRow) :
  (0 <= dict_get (analysis_min_pass_duration_s cfg) 0)%Q ->
  (0 <= link_downlink_mbps cfg)%Q -> (0 <= link_efficiency cfg)%Q ->
  run_passes cfg = Ok df -> In p (catalog_rows df) ->
  (0 <= duration_s p)%Q /\ (0 <= data_mb_est p)%Q.
Proof.
  intros Hmin Hm He Hc Hin.
  destruct (compute_passes_built _ _ _ _ _ _ Hc) as (d0 & d1 & _ & _ & Hb).
  rewrite Forall_forall in Hb.
  destruct (Hb p Hin) as (sat_cfg & sat & gs & e & _ & _ & _ & Hem & ->).
  assert (Hd : (dict_get (analysis_min_pass_duration_s cfg) 0
                <= pass_seconds (t_rise e) (t_set e))%Q)
    by (unfold emitted in Hem; tauto).
  simpl. assert (0 <= pass_seconds (t_rise e) (t_set e))%Q by lra. split.
  - apply round_nonneg. assumption.
  - apply round_nonneg. apply mb_from_mbps_nonneg; assumption.
Qed.

End BuilderProperties.

(** * Further properties of the run *)

Section RunProperties.

Variable fromisoformat : string -> result datetime.
Variable local_utcoffset : Z -> result Z.
Variable tle_file : string -> result (list EarthSatellite).
Variable EarthSatellite_of_tle : string -> string -> string -> result EarthSatellite.
Variable column_sum : list Q -> Q.

Local Abbreviation resolve := (make_satellite tle_file EarthSatellite_of_tle).
Local Abbreviation per_satellite := (for_satellites tle_file EarthSatellite_of_tle).
Local Abbreviation run_passes :=
  (compute_passes fromisoformat local_utcoffset tle_file EarthSatellite_of_tle).
Local Abbreviation run_main :=
  (main fromisoformat local_utcoffset tle_file EarthSatellite_of_tle column_sum).
Local Abbreviation parse := (parse_utc fromisoformat local_utcoffset).

Lemma for_satellites_unresolved (t0 t1 : Z) (mbps eff min_dur_s : Q)
    (stations : list GroundStation) (sats : list SatCfg) :
  forall rows,
    (exists sat_cfg e, In sat_cfg sats /\ resolve sat_cfg = Raise e) ->
    exists e', per_satellite t0 t1 mbps eff min_dur_s stations sats rows = Raise e'.
Proof.
  induction sats as [|c rest IH]; intros rows (sat_cfg & e & Hin & Hres).
  - destruct Hin.
  - cbn [for_satellites]. destruct Hin as [-> | Hin].
    + rewrite Hres. simpl. eexists; reflexivity.
    + destruct (resolve c) as [sat|e1]; simpl; [|eexists; reflexivity].
      destruct (for_ground_stations _ _ _ _ _ _ stations rows) as [r1|e1]; simpl;
        [|eexists; reflexivity].
      apply IH. exists sat_cfg, e. auto.
Qed.

(** X9. [compute_passes] fails before anything else on a start time that
    does not parse, then on an end time that does not parse, each with the
    parser's error; and when the times parse, one configured satellite
    that cannot be resolved makes the whole run fail: no partial catalogue
    is returned. *)
Theorem compute_passes_failures (cfg : Config) :
  (forall e, parse (time_start_utc cfg) = Raise e -> run_passes cfg = Raise e) /\
  (forall d0 e, parse (time_start_utc cfg) = Ok d0 ->
     parse (time_end_utc cfg) = Raise e -> run_passes cfg = Raise e) /\
  (forall d0 d1 sat_cfg e,
     parse (time_start_utc cfg) = Ok d0 -> parse (time_end_utc cfg) = Ok d1 ->
     In sat_cfg (satellites cfg) -> resolve sat_cfg = Raise e ->
     exists e', run_passes cfg = Raise e').
Proof.
  unfold compute_passes. split; [|split].
  - intros e H. rewrite H. reflexivity.
  - intros d0 e H0 H1. rewrite H0; simpl. rewrite H1. reflexivity.
  - intros d0 d1 sat_cfg e H0 H1 Hin Hres. rewrite H0; simpl. rewrite H1; simpl.
    destruct (for_satellites_unresolved (wall_us d0) (wall_us d1)
                (link_downlink_mbps cfg) (link_efficiency cfg)
                (dict_get (analysis_min_pass_duration_s cfg) 0%Q)
                (ground_stations cfg) (satellites cfg) [])
      as [e' He']; [exists sat_cfg, e; auto|].
    rewrite He'. simpl. exists e'. reflexivity.
Qed.

Lemma compute_passes_shape (cfg : Config) (df : DataFrame) :
  run_passes cfg = Ok df ->
  df = PassFrame [] \/
  exists p ps, df = CatalogFrame (map with_dates (p :: ps)).
Proof.
  intros Hc. destruct (compute_passes_rows _ _ _ _ _ _ Hc) as (_ & _ & _ & Hdf).
  destruct (catalog_rows df) as [|p ps]; simpl in Hdf; [left; exact Hdf|].
  right. exists p, ps. exact Hdf.
Qed.

(** X10. The frame that [compute_passes] returns is either the frame
    without columns and without rows, or a frame with at least one row in
    which every row has [aos_dt] equal to its [aos_utc] and [date_utc] the
    day that contains it. *)
Theorem compute_passes_frame (cfg : Config) (df : DataFrame) :
  run_passes cfg = Ok df ->
  df = PassFrame [] \/
  exists r rs,
    df = CatalogFrame (r :: rs) /\
    forall row, In row (r :: rs) ->
      aos_dt row = aos_utc (pass row) /\
      86400 * date_utc row <= aos_dt row < 86400 * date_utc row + 86400.
Proof.
  intros Hc. destruct (compute_passes_shape cfg df Hc) as [Hdf | (p & ps & Hdf)];
    [left; exact Hdf|].
  right. exists (with_dates p), (map with_dates ps). split; [exact Hdf|].
  intros row Hin.
  change (with_dates p :: map with_dates ps) with (map with_dates (p :: ps)) in Hin.
  apply in_map_iff in Hin. destruct Hin as (q & <- & _).
  unfold with_dates; cbn [aos_dt date_utc pass]. split; [reflexivity|].
  pose proof (Z.div_mod (aos_utc q) 86400 ltac:(lia)) as Hdm.
  pose proof (Z.mod_pos_bound (aos_utc q) 86400 ltac:(lia)) as Hb.
  lia.
Qed.

Lemma for_satellites_no_stations (t0 t1 : Z) (mbps eff min_dur_s : Q)
    (sats : list SatCfg) :
  forall rows,
    (forall sat_cfg, In sat_cfg sats -> exists sat, resolve sat_cfg = Ok sat) ->
    per_satellite t0 t1 mbps eff min_dur_s [] sats rows = Ok rows.
Proof.
  induction sats as [|c rest IH]; intros rows Hall; cbn [for_satellites].
  - reflexivity.
  - destruct (Hall c (or_introl eq_refl)) as [sat Hs]. rewrite Hs. simpl.
    apply IH. intros x Hx. apply Hall. right. exact Hx.
Qed.

(** X11. When both times parse, a configuration without satellites gives
    the empty frame, and so does one without ground stations provided
    every configured satellite can be resolved; [main] then reports that
    no pass was found. *)
Theorem empty_configuration (cfg : Config) (d0 d1 : datetime) :
  parse (time_start_utc cfg) = Ok d0 -> parse (time_end_utc cfg) = Ok d1 ->
  satellites cfg = [] \/
  (ground_stations cfg = [] /\
   forall sat_cfg, In sat_cfg (satellites cfg) -> exists sat, resolve sat_cfg = Ok sat) ->
  run_passes cfg = Ok (PassFrame []) /\ run_main cfg = Ok NoPassesFound.
Proof.
  intros H0 H1 Hcase.
  assert (Hc : run_passes cfg = Ok (PassFrame [])).
  { unfold compute_passes. rewrite H0; simpl. rewrite H1; simpl.
    destruct Hcase as [Hs | [Hg Hall]].
    - rewrite Hs. reflexivity.
    - rewrite Hg, for_satellites_no_stations by exact Hall. reflexivity. }
  split; [exact Hc|]. unfold main. rewrite Hc. reflexivity.
Qed.

End RunProperties.

(** * Further properties of the aggregation *)

Lemma filter_perm {A : Type} (f : A -> bool) (l l' : list A) :
  Permutation l l' -> Permutation (filter f l) (filter f l').
Proof.
  induction 1 as [|x l l' Hp IH|x y l|l l' l'' H1 IH1 H2 IH2]; simpl.
  - constructor.
  - destruct (f x); [constructor|]; exact IH.
  - destruct (f x), (f y); try apply Permutation_refl. apply perm_swap.
  - eapply Permutation_trans; eassumption.
Qed.

Lemma rollup_passes (column_sum : list Q -> Q) (rows : list CatalogRow)
    (d : Z) (t : Totals) :
  In (d, t) (daily_total column_sum (daily column_sum rows)) ->
  passes t = Z.of_nat (length (rows_of_date d rows)).
Proof.
  intros Hin.
  destruct (daily_spec column_sum rows) as (_ & _ & _ & _ & D4 & _).
  destruct (daily_total_spec column_sum (daily column_sum rows))
    as (_ & _ & _ & T3 & _).
  rewrite (T3 d t Hin). cbn [rollup_agg passes]. rewrite map_map.
  rewrite <- rows_of_date_selected.
  exact (D4 (fun k : DailyKey => d =? fst (fst k))).
Qed.

(** X13. Both summaries are written in strictly ascending key order (date,
    then satellite, then station for the daily summary; date for the
    rollup), and neither has more rows than the table it summarises. *)
Theorem summaries_ascending (column_sum : list Q -> Q) (rows : list CatalogRow) :
  StronglySorted (fun g h => daily_key_compare (fst g) (fst h) = Lt)
    (daily column_sum rows) /\
  StronglySorted (fun g h => fst g < fst h)
    (daily_total column_sum (daily column_sum rows)) /\
  (length (daily column_sum rows) <= length rows)%nat /\
  (length (daily_total column_sum (daily column_sum rows))
   <= length (daily column_sum rows))%nat.
Proof.
  destruct (daily_spec column_sum rows) as (D0 & _ & _ & _ & _ & D5).
  destruct (daily_total_spec column_sum (daily column_sum rows))
    as (T0 & _ & _ & _ & _ & T5).
  split; [exact D0|]. split; [|split; [exact D5 | exact T5]].
  clear T5. induction T0 as [|g l Hl IH Hall]; [constructor|].
  constructor; [exact IH|].
  eapply Forall_impl; [|exact Hall]. simpl. intros h Hh.
  apply Z.compare_lt_iff. exact Hh.
Qed.

(** X14. No pass is counted twice, and none that has a key is left out:
    added over all groups, the pass counts of the daily summary give the
    number of the catalogue rows that have a key, and so do those of the
    per-date rollup; when every row has a satellite name, that is the
    number of rows of the catalogue. *)
Theorem pass_counts_conserved (column_sum : list Q -> Q) (rows : list CatalogRow) :
  fold_right Z.add 0 (map (fun g => passes (snd g)) (daily column_sum rows))
    = Z.of_nat (length (keyed rows)) /\
  fold_right Z.add 0
    (map (fun g => passes (snd g)) (daily_total column_sum (daily column_sum rows)))
    = Z.of_nat (length (keyed rows)) /\
  ((forall r, In r rows -> satellite (pass r) <> None) ->
   length (keyed rows) = length rows).
Proof.
  destruct (daily_spec column_sum rows) as (_ & _ & _ & _ & D4 & _).
  destruct (daily_total_spec column_sum (daily column_sum rows))
    as (_ & _ & _ & _ & T4 & _).
  assert (Hd : fold_right Z.add 0
                 (map (fun g => passes (snd g)) (daily column_sum rows))
               = Z.of_nat (length (keyed rows))).
  { pose proof (D4 (fun _ => true)) as H. cbn beta in H.
    rewrite filter_all in H. rewrite H.
    rewrite <- (keyed_selected (fun _ => true)), filter_all. reflexivity. }
  split; [exact Hd|]. split; [rewrite T4; exact Hd|].
  clear D4 T4 Hd. intros Hall. unfold keyed.
  induction rows as [|r rows IH]; cbn [flat_map length]; [reflexivity|].
  rewrite length_app, IH by (intros x Hx; apply Hall; right; exact Hx).
  unfold daily_key.
  destruct (satellite (pass r)) eqn:E; [reflexivity|].
  exfalso. apply (Hall r (or_introl eq_refl)). exact E.
Qed.

(** X15. The same rows in another order give the same keys in the same
    order, in the daily summary and in the rollup. Under a key, the two
    groups aggregate the same rows, which may come in another order, and
    their pass counts are equal; so are the pass counts of the rollup under
    each date. *)
Theorem aggregation_order_independent (column_sum : list Q -> Q)
    (rows rows' : list CatalogRow) :
  Permutation rows rows' ->
  map fst (daily column_sum rows) = map fst (daily column_sum rows') /\
  map fst (daily_total column_sum (daily column_sum rows))
    = map fst (daily_total column_sum (daily column_sum rows')) /\
  (forall k t t', In (k, t) (daily column_sum rows) ->
     In (k, t') (daily column_sum rows') ->
     Permutation (rows_of_key k rows) (rows_of_key k rows') /\
     t = daily_agg column_sum (rows_of_key k rows) /\
     t' = daily_agg column_sum (rows_of_key k rows') /\
     passes t = passes t') /\
  (forall d t t', In (d, t) (daily_total column_sum (daily column_sum rows)) ->
     In (d, t') (daily_total column_sum (daily column_sum rows')) ->
     passes t = passes t').
Proof.
  intros Hp.
  destruct (daily_spec column_sum rows) as (_ & _ & _ & D3 & _).
  destruct (daily_spec column_sum rows') as (_ & _ & _ & D3' & _).
  assert (Hkeys : map fst (daily column_sum rows) = map fst (daily column_sum rows')).
  { unfold daily. rewrite !map_map. cbn [fst].
    apply (grouped_keys_unique DailyKey CatalogRow daily_key_compare
             daily_key_compare_eq daily_key_compare_antisym daily_key_compare_trans).
    intros k. rewrite !keyed_keys.
    split; intros (r & Hr & Hk); exists r; split; try exact Hk.
    - eapply Permutation_in; [exact Hp | exact Hr].
    - eapply Permutation_in; [apply Permutation_sym; exact Hp | exact Hr]. }
  split; [exact Hkeys|]. split; [|split].
  - unfold daily_total. rewrite !map_map. cbn [fst].
    apply (grouped_keys_unique Z Totals Z.compare Z.compare_eq_iff
             (fun a b => Z.compare_antisym b a) Z_compare_trans).
    intros d. rewrite !rekeyed_keys, Hkeys. reflexivity.
  - intros k t t' Hin Hin'.
    assert (Hperm : Permutation (rows_of_key k rows) (rows_of_key k rows'))
      by (apply filter_perm; exact Hp).
    split; [exact Hperm|]. split; [exact (D3 k t Hin)|].
    split; [exact (D3' k t' Hin')|].
    rewrite (D3 k t Hin), (D3' k t' Hin'). cbn [daily_agg passes].
    rewrite (Permutation_length Hperm). reflexivity.
  - intros d t t' Hin Hin'.
    rewrite (rollup_passes column_sum rows d t Hin),
      (rollup_passes column_sum rows' d t' Hin').
    unfold rows_of_date.
    rewrite (Permutation_length (filter_perm _ _ _ Hp)). reflexivity.
Qed.

(** * Further properties of the utilities and of satellite resolution *)

(** X16. With a rate and an efficiency that are not negative, the estimate
    does not decrease when the duration grows. *)
Theorem mb_from_mbps_monotone (mbps eff s1 s2 : Q) :
  (0 <= mbps)%Q -> (0 <= eff)%Q -> (s1 <= s2)%Q ->
  (mb_from_mbps mbps s1 eff <= mb_from_mbps mbps s2 eff)%Q.
Proof.
  intros Hm He Hs.
  assert (E : (mb_from_mbps mbps s2 eff
               == mb_from_mbps mbps s1 eff + mb_from_mbps mbps (s2 - s1) eff)%Q)
    by (unfold mb_from_mbps; field).
  rewrite E.
  pose proof (mb_from_mbps_nonneg mbps (s2 - s1) eff Hm ltac:(lra) He). lra.
Qed.

Lemma first_named_raises (target : string) (pre : list EarthSatellite)
    (s : EarthSatellite) (post : list EarthSatellite) :
  Forall (other_name target) pre -> name s = None ->
  first_named target (pre ++ s :: post) = Raise AttributeError.
Proof.
  intros Hpre Hs. induction Hpre as [|x pre (n & Hn & Hne) _ IH];
    cbn [app first_named]; unfold name_strip.
  - rewrite Hs. reflexivity.
  - rewrite Hn. cbn [bind].
    apply String.eqb_neq in Hne. rewrite Hne. exact IH.
Qed.

(** X17. The failures of [make_satellite]. With a URL: the error of the
    loader when the source cannot be read, [RuntimeError] when the source
    yields no entity, and [AttributeError] when the source yields several
    entities and one without a name is met before any whose name matches.
    Without a URL: [KeyError] when one of [tle1], [tle2] and [name] is
    missing, else the error of the constructor. There is no other failure.
    A configured URL takes precedence: the inline elements are then not
    looked at. *)
Theorem make_satellite_failures
    (tle_file : string -> result (list EarthSatellite))
    (EarthSatellite_of_tle : string -> string -> string -> result EarthSatellite)
    (sat_cfg : SatCfg) :
  (forall e,
     make_satellite tle_file EarthSatellite_of_tle sat_cfg = Raise e <->
     (exists url, cfg_tle_url sat_cfg = Some url /\
        (tle_file url = Raise e \/
         (e = RuntimeError /\ tle_file url = Ok []) \/
         (e = AttributeError /\
          exists s1 s2 rest pre s post,
            tle_file url = Ok (s1 :: s2 :: rest) /\
            s1 :: s2 :: rest = pre ++ s :: post /\
            Forall (other_name (strip (dict_get (cfg_name sat_cfg) ""%string))) pre /\
            name s = None))) \/
     (cfg_tle_url sat_cfg = None /\
        ((e = KeyError /\
          (cfg_tle1 sat_cfg = None \/ cfg_tle2 sat_cfg = None \/
           cfg_name sat_cfg = None)) \/
         (exists t1 t2 n,
            cfg_tle1 sat_cfg = Some t1 /\ cfg_tle2 sat_cfg = Some t2 /\
            cfg_name sat_cfg = Some n /\ EarthSatellite_of_tle t1 t2 n = Raise e)))) /\
  (forall url t1 t2, cfg_tle_url sat_cfg = Some url ->
     make_satellite tle_file EarthSatellite_of_tle sat_cfg
     = make_satellite tle_file EarthSatellite_of_tle
         {| cfg_name := cfg_name sat_cfg; cfg_tle_url := Some url;
            cfg_tle1 := t1; cfg_tle2 := t2 |}) /\
  (forall t1 t2 n, cfg_tle_url sat_cfg = None ->
     cfg_tle1 sat_cfg = Some t1 -> cfg_tle2 sat_cfg = Some t2 ->
     cfg_name sat_cfg = Some n ->
     make_satellite tle_file EarthSatellite_of_tle sat_cfg
     = EarthSatellite_of_tle t1 t2 n).
Proof.
  split; [|split].
  - intros e. unfold make_satellite.
    destruct (cfg_tle_url sat_cfg) as [url|] eqn:Hu.
    + destruct (tle_file url) as [[|s1 [|s2 rest]]|e0] eqn:Hs; cbn [bind].
      * split.
        -- intros H; inversion H; subst. left. exists url. auto.
        -- intros [(u & Hu' & H) | [Hn _]]; [|discriminate].
           inversion Hu'; subst u. rewrite Hs in H.
           destruct H as [H | [[-> _] | [_ (a & b & c & p & s & q & H & _)]]];
             [discriminate | reflexivity | discriminate].
      * split; [discriminate|].
        intros [(u & Hu' & H) | [Hn _]]; [|discriminate].
        inversion Hu'; subst u. rewrite Hs in H.
        destruct H as [H | [[_ H] | [_ (a & b & c & p & s & q & H & _)]]];
          discriminate.
      * pose proof (first_named_spec (strip (dict_get (cfg_name sat_cfg) ""%string))
                      (s1 :: s2 :: rest)) as Hspec.
        destruct (first_named (strip (dict_get (cfg_name sat_cfg) ""%string))
                    (s1 :: s2 :: rest)) as [found|e1] eqn:Hfn; cbn [bind].
        -- assert (Hok : exists s,
                     match found with
                     | Some s0 => Ok s0
                     | None => getitem (s1 :: s2 :: rest) 0
                     end = Ok s).
           { destruct found as [s|]; [exists s; reflexivity|].
             exists s1. apply getitem_head0. }
           destruct Hok as (s & ->).
           split; [discriminate|].
           intros [(u & Hu' & H) | [Hn _]]; [|discriminate].
           inversion Hu'; subst u. rewrite Hs in H.
           destruct H as [H | [[_ H] | [_ (a & b & c & p & x & q & H & Hd & Hp & Hx)]]];
             try discriminate.
           inversion H; subst a b c.
           rewrite Hd, (first_named_raises _ p x q Hp Hx) in Hfn. discriminate.
        -- destruct Hspec as (-> & pre & s & post & Hd & Hp & Hx).
           split.
           ++ intros H; inversion H; subst. left. exists url. split; [reflexivity|].
              right. right. split; [reflexivity|].
              exists s1, s2, rest, pre, s, post. auto.
           ++ intros [(u & Hu' & H) | [Hn _]]; [|discriminate].
              inversion Hu'; subst u. rewrite Hs in H.
              destruct H as [H | [[_ H] | [-> _]]];
                [discriminate | discriminate | reflexivity].
      * split.
        -- intros H; inversion H; subst. left. exists url. auto.
        -- intros [(u & Hu' & H) | [Hn _]]; [|discriminate].
           inversion Hu'; subst u. rewrite Hs in H.
           destruct H as [H | [[_ H] | [_ (a & b & c & p & s & q & H & _)]]];
             [inversion H; reflexivity | discriminate | discriminate].
    + destruct (cfg_tle1 sat_cfg) as [t1|], (cfg_tle2 sat_cfg) as [t2|],
        (cfg_name sat_cfg) as [n|]; cbn [subscript bind];
        (split;
         [ intros H; right; split; [reflexivity|];
           first [ right; exists t1, t2, n; auto
                 | left; inversion H; subst; split; auto ]
         | intros [(u & Hu' & _) | [_ [[-> H] | (a & b & c & H1 & H2 & H3 & H4)]]];
           [ discriminate
           | try reflexivity; destruct H as [H | [H | H]]; discriminate
           | try discriminate; inversion H1; inversion H2; inversion H3; subst;
             exact H4 ] ]).
  - intros url t1 t2 Hu. unfold make_satellite. rewrite Hu. reflexivity.
  - intros t1 t2 n Hu H1 H2 Hn. unfold make_satellite.
    rewrite Hu, H1, H2, Hn. reflexivity.
Qed.

Section MinimumOnlyFilters.

Variable sat : EarthSatellite.
Variable gs : GroundStation.
Variable geo : GeographicPosition.
Variable mask : Q.
Variable cfg_downlink_mbps : Q.
Variable cfg_efficiency : Q.
Variable times : list Time.
Variable events : list Z.

Local Abbreviation row3 :=
  (fun tr : Time * Time * Time =>
     pass_row sat gs geo mask cfg_downlink_mbps cfg_efficiency
       (fst (fst tr)) (snd (fst tr)) (snd tr)).
Local Abbreviation loop_at :=
  (fun m => while_loop sat gs geo mask cfg_downlink_mbps cfg_efficiency m times events).
Local Abbreviation len := (Z.of_nat (length events)).

Lemma loop_candidates (n : nat) :
  forall i, (Z.to_nat (len - i) <= n)%nat ->
    (exists cands c, forall m rows,
        loop_at m (i, rows) = Ok (c, rows ++ map row3 (kept m cands))) \/
    (exists e, forall m rows, loop_at m (i, rows) = Raise e).
Proof.
  induction n as [|n IH]; intros i Hm.
  - left. exists [], i. intros m rows. rewrite while_loop_eq.
    unfold loop_cond; cbn [fst].
    replace (i <? len - 2) with false by (symmetry; apply Z.ltb_ge; lia).
    simpl. rewrite app_nil_r. reflexivity.
  - destruct (i <? len - 2) eqn:Hc.
    2:{ left. exists [], i. intros m rows. rewrite while_loop_eq.
        unfold loop_cond; cbn [fst]. rewrite Hc. simpl. rewrite app_nil_r.
        reflexivity. }
    apply Z.ltb_lt in Hc.
    assert (Hunf : forall m rows,
              loop_at m (i, rows)
              = match loop_body sat gs geo mask cfg_downlink_mbps cfg_efficiency m
                        times events (i, rows) with
                | Ok st' => loop_at m st'
                | Raise e => Raise e
                end).
    { intros m rows. rewrite while_loop_eq at 1. unfold loop_cond; cbn [fst].
      replace (i <? len - 2) with true by (symmetry; apply Z.ltb_lt; lia).
      reflexivity. }
    destruct (is_triple events i) as [[|]|e] eqn:Ht.
    + destruct (getitem times i) as [tr|e] eqn:Hr.
      2:{ right. exists e. intros m rows. rewrite Hunf. unfold loop_body.
          rewrite Ht; simpl. rewrite Hr. reflexivity. }
      destruct (getitem times (i + 1)) as [tc|e] eqn:Hcu.
      2:{ right. exists e. intros m rows. rewrite Hunf. unfold loop_body.
          rewrite Ht; simpl. rewrite Hr; simpl. rewrite Hcu. reflexivity. }
      destruct (getitem times (i + 2)) as [ts|e] eqn:Hs.
      2:{ right. exists e. intros m rows. rewrite Hunf. unfold loop_body.
          rewrite Ht; simpl. rewrite Hr; simpl. rewrite Hcu; simpl. rewrite Hs.
          reflexivity. }
      destruct (IH (i + 3)) as [(cands & c & Hl) | (e & Hl)]; [lia| |].
      * left. exists ((tr, tc, ts) :: cands), c. intros m rows.
        rewrite Hunf. unfold loop_body.
        rewrite Ht; simpl. rewrite Hr; simpl. rewrite Hcu; simpl. rewrite Hs; simpl.
        unfold kept. cbn [filter fst snd]. fold (kept m cands).
        destruct (Qltb (pass_seconds tr ts) m); cbn [negb].
        -- apply Hl.
        -- rewrite Hl. cbn [map]. rewrite <- app_assoc. reflexivity.
      * right. exists e. intros m rows.
        rewrite Hunf. unfold loop_body.
        rewrite Ht; simpl. rewrite Hr; simpl. rewrite Hcu; simpl. rewrite Hs; simpl.
        destruct (Qltb (pass_seconds tr ts) m); apply Hl.
    + destruct (IH (i + 1)) as [(cands & c & Hl) | (e & Hl)]; [lia| |].
      * left. exists cands, c. intros m rows. rewrite Hunf.
        rewrite body_skips by exact Ht. apply Hl.
      * right. exists e. intros m rows. rewrite Hunf.
        rewrite body_skips by exact Ht. apply Hl.
    + right. exists e. intros m rows. rewrite Hunf. unfold loop_body.
      rewrite Ht. reflexivity.
Qed.

(** X18. The minimum duration only filters. Which triples the scan
    considers, and whether it fails, does not depend on the minimum: for
    each stream there is one list of candidate triples such that, for
    every minimum, the scan yields exactly the rows of the candidates whose
    duration is not below it; or else the scan fails with one and the same
    error for every minimum. *)
Theorem minimum_only_filters :
  (exists cands, forall min_dur_s rows,
      scan_events sat gs geo mask cfg_downlink_mbps cfg_efficiency min_dur_s
        times events rows
      = Ok (rows ++ map row3 (kept min_dur_s cands))) \/
  (exists e, forall min_dur_s rows,
      scan_events sat gs geo mask cfg_downlink_mbps cfg_efficiency min_dur_s
        times events rows = Raise e).
Proof.
  destruct (loop_candidates (Z.to_nat len) 0) as [(cands & c & Hl) | (e & Hl)]; [lia| |].
  - left. exists cands. intros m rows. unfold scan_events. rewrite Hl. reflexivity.
  - right. exists e. intros m rows. unfold scan_events. rewrite Hl. reflexivity.
Qed.

End MinimumOnlyFilters.

(** * Instances *)

Lemma scan_row_count_bound_witness :
  scan_events sat0 gs0 geo0 0 10 (8 # 10) 0 times_two_passes
    [0; 1; 2; 0; 1; 2] [] = Ok [row0; row1] /\
  3 * (Z.of_nat (length [row0; row1]) - Z.of_nat (length (@nil PassRow)))
    <= Z.of_nat (length [0; 1; 2; 0; 1; 2]).
Proof.
  assert (H : scan_events sat0 gs0 geo0 0 10 (8 # 10) 0 times_two_passes
                [0; 1; 2; 0; 1; 2] [] = Ok [row0; row1])
    by (vm_compute; reflexivity).
  split; [exact H|].
  exact (proj2 (scan_row_count_bound sat0 gs0 geo0 0 10 (8 # 10) 0
                  times_two_passes [0; 1; 2; 0; 1; 2] [] _ H)).
Defined.

Lemma loop_skips_unmatched_run_witness :
  (0 <= 1 /\ 1 <= Z.of_nat (length [0; 0; 1; 2]) - 2 /\
   forall i, 0 <= i < 1 -> is_triple [0; 0; 1; 2] i = Ok false) /\
  while_loop sat0 gs0 geo0 0 10 (8 # 10) 0
    [time_at 0; time_at 300000000; time_at 600000000; time_at 900000000]
    [0; 0; 1; 2] (0, [])
  = while_loop sat0 gs0 geo0 0 10 (8 # 10) 0
      [time_at 0; time_at 300000000; time_at 600000000; time_at 900000000]
      [0; 0; 1; 2] (1, []).
Proof.
  assert (H1 : 0 <= 1) by lia.
  assert (H2 : 1 <= Z.of_nat (length [0; 0; 1; 2]) - 2) by (simpl; lia).
  assert (H3 : forall i, 0 <= i < 1 -> is_triple [0; 0; 1; 2] i = Ok false).
  { intros i Hi. replace i with 0 by lia. reflexivity. }
  split; [auto|].
  exact (loop_skips_unmatched_run sat0 gs0 geo0 0 10 (8 # 10) 0
           [time_at 0; time_at 300000000; time_at 600000000; time_at 900000000]
           [0; 0; 1; 2] 0 1 [] H1 H2 H3).
Defined.

Lemma scan_raises_only_IndexError_witness :
  scan_events sat0 gs0 geo0 0 10 (8 # 10) 0 [] [0; 1; 2] [] = Raise IndexError /\
  ~ aligned [] [0; 1; 2].
Proof.
  assert (H : scan_events sat0 gs0 geo0 0 10 (8 # 10) 0 [] [0; 1; 2] []
              = Raise IndexError) by (vm_compute; reflexivity).
  split; [exact H|].
  exact (proj2 (scan_raises_only_IndexError sat0 gs0 geo0 0 10 (8 # 10) 0
                  [] [0; 1; 2] [] _ H)).
Defined.

Lemma catalog_rows_consistent_witness :
  compute_passes fromisoformat0 local_utcoffset0 (tle_of [sat0])
    satellite_of_tle0 (cfg_with (Some 60%Q))
  = Ok (CatalogFrame [with_dates row0]) /\
  In row0 (catalog_rows (CatalogFrame [with_dates row0])) /\
  exists d0 d1 sat_cfg sat gs e,
    parse_utc fromisoformat0 local_utcoffset0
      (time_start_utc (cfg_with (Some 60%Q))) = Ok d0 /\
    parse_utc fromisoformat0 local_utcoffset0
      (time_end_utc (cfg_with (Some 60%Q))) = Ok d1 /\
    In sat_cfg (satellites (cfg_with (Some 60%Q))) /\
    make_satellite (tle_of [sat0]) satellite_of_tle0 sat_cfg = Ok sat /\
    In gs (ground_stations (cfg_with (Some 60%Q))) /\
    emitted (dict_get (analysis_min_pass_duration_s (cfg_with (Some 60%Q))) 0%Q)
      (fst (find_events sat (latlon (gs_lat_deg gs) (gs_lon_deg gs) (gs_alt_m gs))
              (wall_us d0) (wall_us d1) (dict_get (gs_mask_deg gs) 0%Q)))
      (snd (find_events sat (latlon (gs_lat_deg gs) (gs_lon_deg gs) (gs_alt_m gs))
              (wall_us d0) (wall_us d1) (dict_get (gs_mask_deg gs) 0%Q))) e /\
    satellite row0 = name sat /\ station row0 = gs_name gs /\
    mask_deg row0 = dict_get (gs_mask_deg gs) 0%Q /\
    downlink_mbps row0 = link_downlink_mbps (cfg_with (Some 60%Q)) /\
    efficiency row0 = link_efficiency (cfg_with (Some 60%Q)) /\
    aos_utc row0 = utc_iso (t_rise e) /\ los_utc row0 = utc_iso (t_set e).
Proof.
  assert (H : compute_passes fromisoformat0 local_utcoffset0 (tle_of [sat0])
                satellite_of_tle0 (cfg_with (Some 60%Q))
              = Ok (CatalogFrame [with_dates row0])) by (vm_compute; reflexivity).
  assert (Hin : In row0 (catalog_rows (CatalogFrame [with_dates row0])))
    by (left; reflexivity).
  split; [exact H|]. split; [exact Hin|].
  exact (catalog_rows_consistent fromisoformat0 local_utcoffset0 (tle_of [sat0])
           satellite_of_tle0 _ _ _ H Hin).
Defined.

Lemma catalog_values_nonnegative_witness :
  ((0 <= dict_get (analysis_min_pass_duration_s (cfg_with (Some 60%Q))) 0)%Q /\
   (0 <= link_downlink_mbps (cfg_with (Some 60%Q)))%Q /\
   (0 <= link_efficiency (cfg_with (Some 60%Q)))%Q /\
   compute_passes fromisoformat0 local_utcoffset0 (tle_of [sat0])
     satellite_of_tle0 (cfg_with (Some 60%Q))
   = Ok (CatalogFrame [with_dates row0]) /\
   In row0 (catalog_rows (CatalogFrame [with_dates row0]))) /\
  (0 <= duration_s row0)%Q /\ (0 <= data_mb_est row0)%Q.
Proof.
  assert (H1 : (0 <= dict_get (analysis_min_pass_duration_s (cfg_with (Some 60%Q))) 0)%Q)
    by (vm_compute; discriminate).
  assert (H2 : (0 <= link_downlink_mbps (cfg_with (Some 60%Q)))%Q)
    by (vm_compute; discriminate).
  assert (H3 : (0 <= link_efficiency (cfg_with (Some 60%Q)))%Q)
    by (vm_compute; discriminate).
  assert (H : compute_passes fromisoformat0 local_utcoffset0 (tle_of [sat0])
                satellite_of_tle0 (cfg_with (Some 60%Q))
              = Ok (CatalogFrame [with_dates row0])) by (vm_compute; reflexivity).
  assert (Hin : In row0 (catalog_rows (CatalogFrame [with_dates row0])))
    by (left; reflexivity).
  split; [auto|].
  exact (catalog_values_nonnegative fromisoformat0 local_utcoffset0 (tle_of [sat0])
           satellite_of_tle0 _ _ _ H1 H2 H3 H Hin).
Defined.

Lemma compute_passes_frame_witness :
  compute_passes fromisoformat0 local_utcoffset0 (tle_of [sat0])
    satellite_of_tle0 (cfg_with (Some 60%Q))
  = Ok (CatalogFrame [with_dates row0]) /\
  (CatalogFrame [with_dates row0] = PassFrame [] \/
   exists r rs,
     CatalogFrame [with_dates row0] = CatalogFrame (r :: rs) /\
     forall row, In row (r :: rs) ->
       aos_dt row = aos_utc (pass row) /\
       86400 * date_utc row <= aos_dt row < 86400 * date_utc row + 86400).
Proof.
  assert (H : compute_passes fromisoformat0 local_utcoffset0 (tle_of [sat0])
                satellite_of_tle0 (cfg_with (Some 60%Q))
              = Ok (CatalogFrame [with_dates row0])) by (vm_compute; reflexivity).
  split; [exact H|].
  exact (compute_passes_frame fromisoformat0 local_utcoffset0 (tle_of [sat0])
           satellite_of_tle0 _ _ H).
Defined.

Lemma empty_configuration_witness :
  (parse_utc fromisoformat0 local_utcoffset0 (time_start_utc cfg_no_satellites)
     = Ok {| wall_us := 0; tzinfo := Some 0 |} /\
   parse_utc fromisoformat0 local_utcoffset0 (time_end_utc cfg_no_satellites)
     = Ok {| wall_us := 0; tzinfo := Some 0 |} /\
   satellites cfg_no_satellites = []) /\
  compute_passes fromisoformat0 local_utcoffset0 (tle_of [sat0]) satellite_of_tle0
    cfg_no_satellites = Ok (PassFrame []) /\
  main fromisoformat0 local_utcoffset0 (tle_of [sat0]) satellite_of_tle0
    column_sum0 cfg_no_satellites = Ok NoPassesFound.
Proof.
  assert (H0 : parse_utc fromisoformat0 local_utcoffset0
                 (time_start_utc cfg_no_satellites)
               = Ok {| wall_us := 0; tzinfo := Some 0 |}) by reflexivity.
  assert (H1 : parse_utc fromisoformat0 local_utcoffset0
                 (time_end_utc cfg_no_satellites)
               = Ok {| wall_us := 0; tzinfo := Some 0 |}) by reflexivity.
  assert (H2 : satellites cfg_no_satellites = []) by reflexivity.
  split; [auto|].
  exact (empty_configuration fromisoformat0 local_utcoffset0 (tle_of [sat0])
           satellite_of_tle0 column_sum0 cfg_no_satellites _ _ H0 H1 (or_introl H2)).
Defined.

Lemma aggregation_order_independent_witness :
  Permutation [with_dates row0; with_dates row1] [with_dates row1; with_dates row0] /\
  map fst (daily column_sum0 [with_dates row0; with_dates row1])
  = map fst (daily column_sum0 [with_dates row1; with_dates row0]).
Proof.
  assert (H : Permutation [with_dates row0; with_dates row1]
                          [with_dates row1; with_dates row0])
    by apply perm_swap.
  split; [exact H|].
  exact (proj1 (aggregation_order_independent column_sum0 _ _ H)).
Defined.

Lemma mb_from_mbps_monotone_witness :
  ((0 <= 10)%Q /\ (0 <= 8 # 10)%Q /\ (300 <= 600)%Q) /\
  (mb_from_mbps 10 300 (8 # 10) <= mb_from_mbps 10 600 (8 # 10))%Q.
Proof.
  assert (H1 : (0 <= 10)%Q) by (vm_compute; discriminate).
  assert (H2 : (0 <= 8 # 10)%Q) by (vm_compute; discriminate).
  assert (H3 : (300 <= 600)%Q) by (vm_compute; discriminate).
  split; [auto|].
  exact (mb_from_mbps_monotone 10 (8 # 10) 300 600 H1 H2 H3).
Defined.
